(** * pocket-vna-two-port: the device actor, the sweep generator, the status
      decoder and the switch reply protocol

    A shallow embedding of [pkg/pocket/pocket_linux_amd64.go] and
    [pkg/rfswitch/request.go].

    - Go's [float64] is IEEE 754 binary64; it is modelled by the Standard
      Library's executable specification of binary floating point
      ([spec_float] at precision 53 and maximal exponent 1024, every
      operation rounding to nearest, ties to even).
    - Go's [uint64] and [int] are modelled by [Z].
    - A Go [error] is [option string]: [None] is [nil], [Some msg] is
      [errors.New(msg)].
    - A run-time panic (index out of range) is an explicit outcome. *)

From Stdlib Require Import ZArith QArith List String Ascii Bool Lia.
From Stdlib Require Import Floats.SpecFloat.
Import ListNotations.

Local Open Scope Z_scope.

(** ** Go values shared by both packages *)

Definition error := option string.

Definition errors_New (msg : string) : error := Some msg.

(** ** IEEE 754 binary64 *)

Module Float64.

Definition prec : Z := 53.
Definition emax : Z := 1024.

Definition float64 := spec_float.

Definition add : float64 -> float64 -> float64 := SFadd prec emax.
Definition sub : float64 -> float64 -> float64 := SFsub prec emax.
Definition mul : float64 -> float64 -> float64 := SFmul prec emax.
Definition div : float64 -> float64 -> float64 := SFdiv prec emax.
Definition ltb : float64 -> float64 -> bool := SFltb.

(** [float64(n)] for an integer [n]: the nearest binary64 value. *)
Definition of_Z (n : Z) : float64 := binary_normalize prec emax n 0 false.

Definition one : float64 := of_Z 1.

(** The integer part of a float, truncated towards zero; [None] for
    infinities and NaN. *)
Definition trunc (f : float64) : option Z :=
  match f with
  | S754_zero _ => Some 0
  | S754_finite s m e =>
      Some (cond_Zopp s (match e with
                         | Zneg p => Zpos m / 2 ^ Zpos p
                         | _ => Zpos m * 2 ^ e
                         end))
  | _ => None
  end.

(** The amd64 instruction CVTTSD2SQ: truncation to a signed 64-bit
    integer, the "integer indefinite" value [-2^63] when the truncated value
    does not fit or the operand is a NaN. *)
Definition cvttsd2sq (f : float64) : Z :=
  match trunc f with
  | Some z => if (- 2 ^ 63 <=? z) && (z <? 2 ^ 63) then z else - 2 ^ 63
  | None => - 2 ^ 63
  end.

(** [uint64(f)] as the Go compiler lowers it on amd64: operands below
    [2^63] go through CVTTSD2SQ directly, the others are shifted down by
    [2^63] first and get the top bit set afterwards. For values that fit in a
    [uint64] this is truncation towards zero. *)
Definition to_uint64 (f : float64) : Z :=
  let cutoff := of_Z (2 ^ 63) in
  if ltb f cutoff then cvttsd2sq f mod 2 ^ 64
  else Z.lor (cvttsd2sq (sub f cutoff) mod 2 ^ 64) (2 ^ 63).

(** The rational number a float stands for: [m * 2^e] with its sign;
    [None] for infinities and NaN. *)
Definition to_Q (f : float64) : option Q :=
  match f with
  | S754_zero _ => Some (inject_Z 0)
  | S754_finite s m e =>
      Some (match e with
            | Zneg p =>
                (inject_Z (cond_Zopp s (Zpos m)) / inject_Z (2 ^ Zpos p))%Q
            | _ => inject_Z (cond_Zopp s (Zpos m) * 2 ^ e)
            end)
  | _ => None
  end.

(** [math.Round]: the nearest integer, halves away from zero; zeros,
    infinities, NaN and floats that are integers already are returned
    unchanged. A binary64 integer part has at most 53 bits, so the result is
    representable. *)
Definition Round (x : float64) : float64 :=
  match x with
  | S754_finite s m (Zneg p) =>
      let q := Zpos m / 2 ^ Zpos p in
      let r := Zpos m mod 2 ^ Zpos p in
      let n := if 2 ^ Zpos p <=? 2 * r then q + 1 else q in
      binary_normalize prec emax (cond_Zopp s n) 0 s
  | _ => x
  end.

(** The number of binary digits of a positive integer. *)
Definition digits (n : Z) : Z := Z.log2 n + 1.

(** The canonical binary64 representation of an integer [0 < n < 2^53]:
    a 53-bit mantissa and a non-positive exponent. *)
Definition ifloat (n : Z) : float64 :=
  S754_finite false (Z.to_pos (n * 2 ^ (53 - digits n))) (digits n - 53).

End Float64.

(** ** Outcomes of a Go call: a value, or a run-time panic *)

Inductive outcome (A : Type) : Type :=
  | Returns (a : A)
  | Panics (msg : string).
Arguments Returns {A} a.
Arguments Panics {A} msg.

(** A computation over a state [S] that may panic; the state reached is
    kept in both cases. *)
Definition M (S A : Type) : Type := S -> outcome A * S.

Definition ret {S A : Type} (a : A) : M S A := fun s => (Returns a, s).

Definition bind {S A B : Type} (m : M S A) (k : A -> M S B) : M S B :=
  fun s =>
    match m s with
    | (Returns a, s') => k a s'
    | (Panics msg, s') => (Panics msg, s')
    end.

Definition lift {S A : Type} (o : outcome A) : M S A := fun s => (o, s).

Declare Scope go_scope.
Delimit Scope go_scope with go.
Notation "x <- m ;; k" := (bind m (fun x => k))
  (at level 61, m at next level, right associativity) : go_scope.
Notation "' pat <- m ;; k" :=
  (bind m (fun x => match x with pat => k end))
  (at level 61, pat pattern, m at next level, right associativity) : go_scope.
Notation "m ;;; k" := (bind m (fun _ => k))
  (at level 61, right associativity) : go_scope.

(** ** Sweep generator *)

Module Sweep.
Import Float64.

(** The loop counter of [for i := 0; i < size; i++]: the values
    [0, 1, ..., size-1], none when [size <= 0]. *)
Definition indices (size : Z) : list Z :=
  map Z.of_nat (seq 0 (Z.to_nat size)).

(** The body of the loop of [LinFrequency] at counter [i]. *)
Definition LinPoint (start end_ size i : Z) : Z :=
  let s := of_Z start in
  let e := of_Z end_ in
  let f := add s (div (mul (of_Z i) (sub e s)) (sub (of_Z size) one)) in
  to_uint64 f.

Definition LinFrequency (start end_ size : Z) : list Z :=
  map (LinPoint start end_ size) (indices size).

Section Log.

(** [math.Pow] belongs to Go's library, not to this repository: it is a
    parameter of the logarithmic generator. *)
Variable Pow : float64 -> float64 -> float64.

(** The float computed by the loop of [LogFrequency] at counter [i],
    before rounding. *)
Definition LogValue (start end_ size i : Z) : float64 :=
  let s := of_Z start in
  let e := of_Z end_ in
  let x := div e s in
  let y := div (of_Z i) (sub (of_Z size) one) in
  mul s (Pow x y).

Definition LogPoint (start end_ size i : Z) : Z :=
  to_uint64 (Round (LogValue start end_ size i)).

Definition LogFrequency (start end_ size : Z) : list Z :=
  map (LogPoint start end_ size) (indices size).

End Log.

End Sweep.

(** ** Package pocket: status decoder, dispatcher and device actor *)

Module Pocket.
Import Float64.
Local Open Scope go_scope.

(** Modelled from the spec: the type declarations of the package (file
    [types.go] is not among the sources). Each record has the fields the code
    reads and writes. *)
Record Complex := { Real : float64; Imag : float64 }.

Record SParam := {
  S11 : Complex; S12 : Complex; S21 : Complex; S22 : Complex;
  Freq : Z
}.

Record SParamSelect := {
  SelS11 : bool; SelS12 : bool; SelS21 : bool; SelS22 : bool
}.

Record Range := { Start : Z; End : Z }.

Record ReasonableFrequencyRange := { RfrResult : Range }.

Record RangeQuery := {
  RqRange : Range;
  Size : Z;
  LogDistribution : bool;
  RqAvg : Z;
  RqSelect : SParamSelect;
  RqResult : list SParam
}.

Record SingleQuery := {
  SqFreq : Z;
  SqAvg : Z;
  SqSelect : SParamSelect;
  SqResult : SParam
}.

(** The dynamic type of a value received on the command channel: one of
    the three commands, or anything else. *)
Inductive command :=
  | CmdReasonableFrequencyRange (r : ReasonableFrequencyRange)
  | CmdRangeQuery (r : RangeQuery)
  | CmdSingleQuery (q : SingleQuery)
  | CmdOther (v : string).

Record CustomResult := { Message : string; Command : option command }.

(** The values written to the result channel. *)
Inductive result :=
  | ResReasonableFrequencyRange (r : ReasonableFrequencyRange)
  | ResRangeQuery (r : RangeQuery)
  | ResSingleQuery (q : SingleQuery)
  | ResCustom (c : CustomResult).

(** *** The native library *)

(** The calls into the shared C library, with the arguments passed. *)
Inductive call :=
  | pocketvna_get_first_device_handle
  | pocketvna_release_handle (handle : Z)
  | pocketvna_get_reasonable_frequency_range (handle : Z)
  | pocketvna_single_query (handle freq avg params : Z)
  | pocketvna_range_query (handle start end_ size distr avg params : Z).

(** What a call leaves behind: its status code and the contents of the
    locations it was given pointers to. *)
Record reply := {
  status : Z;
  handle_out : Z;
  from_out : Z;
  to_out : Z;
  s11_out : list Complex;
  s21_out : list Complex;
  s12_out : list Complex;
  s22_out : list Complex
}.

Definition zero_sparam : Complex :=
  {| Real := S754_zero false; Imag := S754_zero false |}.

(** Reading [a[i]] from a Go array [[512]C.PVNA_Sparam] that was zeroed
    and then handed to the library: an index outside the array panics. *)
Definition capacity : Z := 512.

Definition array_index (a : list Complex) (i : Z) : outcome Complex :=
  if (0 <=? i) && (i <? capacity)
  then Returns (nth (Z.to_nat i) a zero_sparam)
  else Panics "index out of range".

(** Reading [ff[i]] from a slice. *)
Definition slice_index (ff : list Z) (i : Z) : outcome Z :=
  if i <? 0 then Panics "index out of range"
  else match nth_error ff (Z.to_nat i) with
       | Some f => Returns f
       | None => Panics "index out of range"
       end.

(** *** Status decoder *)

Section Decoder.

(** The table of messages [Results] is declared outside the sources at
    hand: it is a parameter. *)
Variable Results : list string.

Definition Results_index (i : Z) : outcome string :=
  if i <? 0 then Panics "index out of range"
  else match nth_error Results (Z.to_nat i) with
       | Some msg => Returns msg
       | None => Panics "index out of range"
       end.

Definition decode (code : Z) : outcome error :=
  if code =? 0 then Returns None
  else if code =? 255 then
    match Results_index (Z.of_nat (List.length Results) - 1) with
    | Returns msg => Returns (errors_New msg)
    | Panics p => Panics p
    end
  else
    match Results_index code with
    | Returns msg => Returns (errors_New msg)
    | Panics p => Panics p
    end.

End Decoder.

Definition encodeParams (p : SParamSelect) : Z :=
  let n := 0 in
  let n := if SelS21 p then n + 1 else n in
  let n := if SelS11 p then n + 2 else n in
  let n := if SelS12 p then n + 4 else n in
  let n := if SelS22 p then n + 8 else n in
  n.

(** *** The actor and its world *)

Section Actor.

Variable Results : list string.
Variable Pow : float64 -> float64 -> float64.

(** The state of the native library and of the instrument behind it. *)
Variable D : Type.
Variable native : call -> D -> reply * D.

Record VNA := { handle : Z }.

(** The actor's struct, the device, the library calls made so far, the
    commands taken from the command channel and the values written to the
    result channel. *)
Record world := {
  vna : VNA;
  device : D;
  calls : list call;
  taken : list command;
  sent : list result
}.

Definition C_call (c : call) : M world reply :=
  fun w =>
    let '(r, d) := native c (device w) in
    (Returns r,
     {| vna := vna w; device := d; calls := calls w ++ [c];
        taken := taken w; sent := sent w |}).

Definition get_handle : M world Z := fun w => (Returns (handle (vna w)), w).

Definition set_handle (h : Z) : M world unit :=
  fun w =>
    (Returns tt,
     {| vna := {| handle := h |}; device := device w; calls := calls w;
        taken := taken w; sent := sent w |}).

Definition send (r : result) : M world unit :=
  fun w =>
    (Returns tt,
     {| vna := vna w; device := device w; calls := calls w;
        taken := taken w; sent := sent w ++ [r] |}).

Definition receive (c : command) : M world unit :=
  fun w =>
    (Returns tt,
     {| vna := vna w; device := device w; calls := calls w;
        taken := taken w ++ [c]; sent := sent w |}).

Definition getFirstDeviceHandle : M world (Z * error) :=
  r <- C_call pocketvna_get_first_device_handle ;;
  err <- lift (decode Results (status r)) ;;
  ret (handle_out r, err).

Definition releaseHandle (h : Z) : M world error :=
  r <- C_call (pocketvna_release_handle h) ;;
  lift (decode Results (status r)).

Definition getReasonableFrequencyRange (h : Z) : M world (Z * Z * error) :=
  r <- C_call (pocketvna_get_reasonable_frequency_range h) ;;
  err <- lift (decode Results (status r)) ;;
  ret (from_out r, to_out r, err).

Definition singleQuery (h freq avg : Z) (p : SParamSelect)
  : M world (SParam * error) :=
  r <- C_call (pocketvna_single_query h freq avg (encodeParams p)) ;;
  let s := {| S11 := hd zero_sparam (s11_out r);
              S12 := hd zero_sparam (s12_out r);
              S21 := hd zero_sparam (s21_out r);
              S22 := hd zero_sparam (s22_out r);
              Freq := freq |} in
  err <- lift (decode Results (status r)) ;;
  ret (s, err).

(** The loop of [rangeQuery] that copies the buffers into [ss]. *)
Fixpoint copy_points (r : reply) (ff : list Z) (ss : list SParam)
    (counters : list Z) : outcome (list SParam) :=
  match counters with
  | [] => Returns ss
  | i :: rest =>
      match array_index (s11_out r) i with
      | Panics p => Panics p
      | Returns a11 =>
      match array_index (s12_out r) i with
      | Panics p => Panics p
      | Returns a12 =>
      match array_index (s21_out r) i with
      | Panics p => Panics p
      | Returns a21 =>
      match array_index (s22_out r) i with
      | Panics p => Panics p
      | Returns a22 =>
      match slice_index ff i with
      | Panics p => Panics p
      | Returns f =>
          copy_points r ff
            (ss ++ [{| S11 := a11; S12 := a12; S21 := a21; S22 := a22;
                       Freq := f |}]) rest
      end end end end end
  end.

Definition rangeQuery (h start end_ size distr avg : Z) (p : SParamSelect)
  : M world (list SParam * error) :=
  r <- C_call (pocketvna_range_query h start end_ (size mod 2 ^ 32) distr avg
                 (encodeParams p)) ;;
  let ff := if distr =? 1 then Sweep.LinFrequency start end_ size
            else Sweep.LogFrequency Pow start end_ size in
  ss <- lift (copy_points r ff [] (Sweep.indices size)) ;;
  _ <- lift (decode Results (status r)) ;;
  err <- lift (decode Results (status r)) ;;
  ret (ss, err).

Definition Connect : M world error :=
  '(h, err) <- getFirstDeviceHandle ;;
  match err with
  | Some _ => ret err
  | None => set_handle h ;;; ret None
  end.

Definition Disconnect : M world error :=
  h <- get_handle ;; releaseHandle h.

Definition GetReasonableFrequencyRange (r : ReasonableFrequencyRange)
  : M world (ReasonableFrequencyRange * error) :=
  h <- get_handle ;;
  '(fStart, fEnd, err) <- getReasonableFrequencyRange h ;;
  match err with
  | Some _ => ret (r, err)
  | None => ret ({| RfrResult := {| Start := fStart; End := fEnd |} |}, err)
  end.

Definition VNA_RangeQuery (r : RangeQuery) : M world (RangeQuery * error) :=
  let distr := if LogDistribution r then 2 else 1 in
  h <- get_handle ;;
  '(sparams, err) <- rangeQuery h (Start (RqRange r)) (End (RqRange r))
                       (Size r) distr (RqAvg r) (RqSelect r) ;;
  match err with
  | Some _ => ret (r, err)
  | None =>
      ret ({| RqRange := RqRange r; Size := Size r;
              LogDistribution := LogDistribution r; RqAvg := RqAvg r;
              RqSelect := RqSelect r; RqResult := sparams |}, err)
  end.

Definition VNA_SingleQuery (q : SingleQuery) : M world (SingleQuery * error) :=
  h <- get_handle ;;
  '(sparam, err) <- singleQuery h (SqFreq q) (SqAvg q) (SqSelect q) ;;
  match err with
  | Some _ => ret (q, err)
  | None =>
      ret ({| SqFreq := SqFreq q; SqAvg := SqAvg q; SqSelect := SqSelect q;
              SqResult := sparam |}, err)
  end.

Definition error_result (msg : string) : result :=
  ResCustom {| Message := msg; Command := None |}.

Definition HandleCommand (cmd : command) : M world result :=
  match cmd with
  | CmdReasonableFrequencyRange r =>
      '(res, err) <- GetReasonableFrequencyRange r ;;
      match err with
      | Some msg => ret (error_result msg)
      | None => ret (ResReasonableFrequencyRange res)
      end
  | CmdRangeQuery r =>
      '(res, err) <- VNA_RangeQuery r ;;
      match err with
      | Some msg => ret (error_result msg)
      | None => ret (ResRangeQuery res)
      end
  | CmdSingleQuery q =>
      '(res, err) <- VNA_SingleQuery q ;;
      match err with
      | Some msg => ret (error_result msg)
      | None => ret (ResSingleQuery res)
      end
  | CmdOther _ =>
      ret (ResCustom {| Message := "Unknown Command"; Command := Some cmd |})
  end.

(** What the [select] of [Run] picks, one entry per iteration: a command
    from the command channel, or the cancellation of the context. *)
Inductive event :=
  | EvCommand (cmd : command)
  | EvDone.

(** How a run ends: [Run] returned, or it is blocked in its [select]
    because nothing more arrives. *)
Inductive ending := Returned | Waiting.

Fixpoint serve (events : list event) : M world ending :=
  match events with
  | [] => ret Waiting
  | EvCommand cmd :: rest =>
      receive cmd ;;;
      r <- HandleCommand cmd ;;
      send r ;;;
      serve rest
  | EvDone :: _ =>
      err <- Disconnect ;;
      match err with
      | Some msg => send (error_result msg) ;;; ret Returned
      | None => ret Returned
      end
  end.

Definition Run (events : list event) : M world ending :=
  err <- Connect ;;
  match err with
  | Some msg => send (error_result msg) ;;; ret Returned
  | None => serve events
  end.

End Actor.

Arguments Build_world {D} vna device calls taken sent.
Arguments vna {D} w.
Arguments device {D} w.
Arguments calls {D} w.
Arguments taken {D} w.
Arguments sent {D} w.

(** The world in which [New] starts the actor. *)
Definition initial {D : Type} (d : D) : world D :=
  {| vna := {| handle := 0 |}; device := d; calls := []; taken := [];
     sent := [] |}.

(** The library call the dispatcher makes for a sweep request, from the
    handle [h] of the actor. *)
Definition sweep_call (h : Z) (r : RangeQuery) : call :=
  pocketvna_range_query h (Start (RqRange r)) (End (RqRange r))
    (Size r mod 2 ^ 32) (if LogDistribution r then 2 else 1) (RqAvg r)
    (encodeParams (RqSelect r)).

End Pocket.

(** ** Package rfswitch: the reply protocol and the outbound pipe *)

Module Rfswitch.

(** Modelled from the spec: the declarations of [Command] and [Report]
    (their file is not among the sources); on the wire they are
    [{"set": .., "to": ..}] and [{"report": .., "is": ..}]. *)
Record Command := { Set_ : string; To : string }.

Record Report := { Report_ : string; Is : string }.

(** Lower case, to compare message texts up to letter case. *)
Definition lower_ascii (c : ascii) : ascii :=
  let n := nat_of_ascii c in
  if (65 <=? n)%nat && (n <=? 90)%nat then ascii_of_nat (n + 32) else c.

Fixpoint lower (s : string) : string :=
  match s with
  | EmptyString => EmptyString
  | String c rest => String (lower_ascii c) (lower rest)
  end.

(** The dynamic type of a value received on the [Response] channel: the
    assertion [response.(Report)] succeeds or it does not. *)
Inductive message :=
  | IsReport (r : Report)
  | NotReport (v : string).

(** What one [select] of the receive loop yields: the timer fires, or a
    value arrives. *)
Inductive arrival :=
  | Expired
  | Response (m : message).

(** The loop [for i := 0; i < 5; i++] of [SetPort] with [n] iterations
    left. When nothing is left to arrive the timer fires. *)
Fixpoint await (n : nat) (port : string) (arrivals : list arrival) : error :=
  match n with
  | O => errors_New "Too many Unexpected responses"
  | S n' =>
      match arrivals with
      | [] => errors_New "timeout receiving response"
      | Expired :: _ => errors_New "timeout receiving response"
      | Response (IsReport r) :: rest =>
          if String.eqb (Report_ r) "error" then
            errors_New (String.append "Error" (Is r))
          else if String.eqb (Report_ r) "port" && String.eqb (Is r) port then
            None
          else await n' port rest
      | Response (NotReport _) :: rest => await n' port rest
      end
  end.

(** A response that is neither an error report nor the report of the
    requested port: a report of another kind or value, or a value that is not
    a report at all. *)
Definition unexpected (port : string) (m : message) : Prop :=
  match m with
  | IsReport r =>
      Report_ r <> "error"%string
      /\ ~ (Report_ r = "port"%string /\ Is r = port)
  | NotReport _ => True
  end.

(** [SetPort]: [sendable] tells whether the request is taken from the
    [Request] channel before the timer fires. The result is paired with the
    requests written to the channel. *)
Definition SetPort (port : string) (sendable : bool)
    (arrivals : list arrival) : error * list Command :=
  let request := {| Set_ := "port"; To := port |} in
  if sendable then (await 5 port arrivals, [request])
  else (errors_New "timeout sending request", []).

Definition SetShort := SetPort "short".
Definition SetOpen := SetPort "open".
Definition SetLoad := SetPort "load".
Definition SetDUT := SetPort "dut".

(** *** The outbound pipe *)

Record WsMessage := { Data : list Byte.byte; Type_ : Z }.

(** [websocket.TextMessage] *)
Definition TextMessage : Z := 1.

Section Pipe.

(** The values that travel on the [in] channel, and [json.Marshal], which
    returns the encoding or, with a nil payload, an error. *)
Variable V : Type.
Variable json_Marshal : V -> list Byte.byte + string.

(** What the [select] of the pipe picks, one entry per iteration. *)
Inductive pipe_event :=
  | CtxDone
  | Incoming (s : V).

(** The messages written to [out] and the warnings logged. *)
Record pipe_trace := {
  forwarded : list WsMessage;
  logged : list string
}.

Definition pipe_step (s : V) (t : pipe_trace) : pipe_trace :=
  let '(payload, warnings) :=
    match json_Marshal s with
    | inl bytes => (bytes, [])
    | inr err => ([], ["Could not turn interface{} into JSON"%string])
    end in
  {| forwarded := forwarded t ++ [{| Data := payload; Type_ := TextMessage |}];
     logged := logged t ++ warnings |}.

Fixpoint PipeInterfaceToWs (events : list pipe_event) (t : pipe_trace)
  : pipe_trace :=
  match events with
  | [] => t
  | CtxDone :: _ => t
  | Incoming s :: rest => PipeInterfaceToWs rest (pipe_step s t)
  end.

Definition no_trace : pipe_trace := {| forwarded := []; logged := [] |}.

End Pipe.

End Rfswitch.

(** ** Concrete instances *)

Module Samples.
Import Pocket Rfswitch.

(** A concrete setting: a table of four messages and a library without a
    device that answers every call with status 1. *)
Definition table : list string :=
  ["Ok"; "No device"; "Bad handle"; "Other"]%string.

Definition no_reply (code : Z) : reply :=
  {| status := code; handle_out := 0; from_out := 0; to_out := 0;
     s11_out := []; s21_out := []; s12_out := []; s22_out := [] |}.

Definition absent (c : call) (d : unit) : reply * unit := (no_reply 1, d).

Definition present (c : call) (d : unit) : reply * unit := (no_reply 0, d).

(** Some function in the place of [math.Pow]. *)
Definition pow_sample (x y : Float64.float64) : Float64.float64 := x.

Definition sweep_513 : RangeQuery :=
  {| RqRange := {| Start := 1000000; End := 2000000 |};
     Size := 513;
     LogDistribution := false;
     RqAvg := 1;
     RqSelect := {| SelS11 := true; SelS12 := false; SelS21 := true;
                    SelS22 := false |};
     RqResult := [] |}.

(** A concrete [json.Marshal]: commands are encoded, and [None] stands for
    a Go value that has no JSON encoding, such as a channel. *)
Definition sample_Marshal (v : option Command) : list Byte.byte + string :=
  match v with
  | Some c => inl (list_byte_of_string (String.append (Set_ c) (To c)))
  | None => inr "json: unsupported type"%string
  end.

End Samples.

(** ** The inbound pipe of package rfswitch *)

Module Inbound.
Import Rfswitch.

Section Pipe.

(** [json.Unmarshal(msg.Data, &r)] on a zero [Report]: what is in [r]
    afterwards, and the error. *)
Variable json_Unmarshal : list Byte.byte -> Report * error.

(** The reports written to [out] and the warnings logged. *)
Record inbound_trace := {
  delivered : list Report;
  warned : list string
}.

Definition inbound_step (msg : WsMessage) (t : inbound_trace)
  : inbound_trace :=
  let '(r, err) := json_Unmarshal (Data msg) in
  let warnings :=
    match err with
    | Some _ =>
        [String.append
           "Could not turn unmarshal JSON - invalid report string in JSON? "
           (string_of_list_byte (Data msg))]
    | None => []
    end in
  {| delivered := delivered t ++ [r]; warned := warned t ++ warnings |}.

Fixpoint PipeWsToInterface (events : list (pipe_event WsMessage))
    (t : inbound_trace) : inbound_trace :=
  match events with
  | [] => t
  | CtxDone _ :: _ => t
  | Incoming _ msg :: rest => PipeWsToInterface rest (inbound_step msg t)
  end.

End Pipe.

(** What [SetPort] finds on the [Response] channel when the inbound pipe
    feeds it: every value is a [Report]. *)
Definition arrivals_of (reports : list Report) : list arrival :=
  map (fun r => Response (IsReport r)) reports.

(** The zero value of [Report]. *)
Definition zero_Report : Report :=
  {| Report_ := EmptyString; Is := EmptyString |}.

End Inbound.

(** ** Notions to state properties of the actor and of the pipes *)

Module Notions.
Import Pocket Rfswitch.

(** A library call other than the one that gets a handle, made on the
    handle [h]. *)
Definition uses_handle (h : Z) (c : call) : Prop :=
  match c with
  | pocketvna_get_first_device_handle => False
  | pocketvna_release_handle h' => h' = h
  | pocketvna_get_reasonable_frequency_range h' => h' = h
  | pocketvna_single_query h' _ _ _ => h' = h
  | pocketvna_range_query h' _ _ _ _ _ _ => h' = h
  end.

(** The library call that serves a command on the handle [h]; none for
    an unknown command. *)
Definition library_call (h : Z) (cmd : command) : option call :=
  match cmd with
  | CmdReasonableFrequencyRange _ =>
      Some (pocketvna_get_reasonable_frequency_range h)
  | CmdRangeQuery r => Some (sweep_call h r)
  | CmdSingleQuery q =>
      Some (pocketvna_single_query h (SqFreq q) (SqAvg q)
              (encodeParams (SqSelect q)))
  | CmdOther _ => None
  end.

(** A command whose results fit the buffers of [rangeQuery]. *)
Definition fits (cmd : command) : Prop :=
  match cmd with
  | CmdRangeQuery r => Size r <= capacity
  | _ => True
  end.

(** The point of a sweep at counter [i]: the four buffers at [i] and the
    frequency label [ff[i]]. *)
Definition point (r : reply) (ff : list Z) (i : Z) : SParam :=
  {| S11 := nth (Z.to_nat i) (s11_out r) zero_sparam;
     S12 := nth (Z.to_nat i) (s12_out r) zero_sparam;
     S21 := nth (Z.to_nat i) (s21_out r) zero_sparam;
     S22 := nth (Z.to_nat i) (s22_out r) zero_sparam;
     Freq := nth (Z.to_nat i) ff 0 |}.

(** The frequency labels of a sweep request. *)
Definition labels (Pow : Float64.float64 -> Float64.float64 -> Float64.float64)
    (r : RangeQuery) : list Z :=
  if LogDistribution r
  then Sweep.LogFrequency Pow (Start (RqRange r)) (End (RqRange r)) (Size r)
  else Sweep.LinFrequency (Start (RqRange r)) (End (RqRange r)) (Size r).

(** The world after the library call [c], and the reply to it. *)
Definition after_call {D : Type} (native : call -> D -> reply * D)
    (c : call) (w : world D) : world D :=
  {| vna := vna w;
     device := snd (native c (device w));
     calls := calls w ++ [c];
     taken := taken w;
     sent := sent w |}.

Definition reply_to {D : Type} (native : call -> D -> reply * D)
    (c : call) (w : world D) : reply :=
  fst (native c (device w)).

(** The result of a command that the library served with the reply
    [rep]: the request with its outputs filled in. *)
Definition answer
    (Pow : Float64.float64 -> Float64.float64 -> Float64.float64)
    (cmd : command) (rep : reply) : result :=
  match cmd with
  | CmdReasonableFrequencyRange _ =>
      ResReasonableFrequencyRange
        {| RfrResult := {| Start := from_out rep; End := to_out rep |} |}
  | CmdRangeQuery r =>
      ResRangeQuery
        {| RqRange := RqRange r; Size := Size r;
           LogDistribution := LogDistribution r; RqAvg := RqAvg r;
           RqSelect := RqSelect r;
           RqResult := map (point rep (labels Pow r))
                         (Sweep.indices (Size r)) |}
  | CmdSingleQuery q =>
      ResSingleQuery
        {| SqFreq := SqFreq q; SqAvg := SqAvg q; SqSelect := SqSelect q;
           SqResult := {| S11 := hd zero_sparam (s11_out rep);
                          S12 := hd zero_sparam (s12_out rep);
                          S21 := hd zero_sparam (s21_out rep);
                          S22 := hd zero_sparam (s22_out rep);
                          Freq := SqFreq q |} |}
  | CmdOther _ =>
      ResCustom
        {| Message := "Unknown Command"; Pocket.Command := Some cmd |}
  end.

(** The commands the [select] of [Run] takes: those picked before the
    first cancellation. *)
Fixpoint accepted (events : list event) : list command :=
  match events with
  | [] => []
  | EvCommand cmd :: rest => cmd :: accepted rest
  | EvDone :: _ => []
  end.

(** The values the [select] of a pipe takes before the first
    cancellation. *)
Fixpoint piped {V : Type} (events : list (pipe_event V)) : list V :=
  match events with
  | [] => []
  | Incoming _ s :: rest => s :: piped rest
  | CtxDone _ :: _ => []
  end.

(** The message the outbound pipe writes for a value. *)
Definition outbound {V : Type} (json_Marshal : V -> list Byte.byte + string)
    (s : V) : WsMessage :=
  {| Data := match json_Marshal s with inl bytes => bytes | inr _ => [] end;
     Type_ := TextMessage |}.

(** A value that [json.Marshal] cannot encode, and a message that
    [json.Unmarshal] cannot decode. *)
Definition fails {V : Type} (json_Marshal : V -> list Byte.byte + string)
    (s : V) : bool :=
  match json_Marshal s with inl _ => false | inr _ => true end.

Definition garbled (json_Unmarshal : list Byte.byte -> Report * error)
    (msg : WsMessage) : bool :=
  match snd (json_Unmarshal (Data msg)) with
  | Some _ => true
  | None => false
  end.

(** A report that ends the receive loop of [SetPort port] with success. *)
Definition matching (port : string) (a : arrival) : Prop :=
  exists r : Report,
    a = Response (IsReport r)
    /\ Report_ r = "port"%string /\ Is r = port.

End Notions.

(** ** More concrete instances *)

Module Instances.
Import Pocket Rfswitch.

(** A library with one device: it hands out the handle 7 and answers
    every call with status 0 and three measured points. *)
Definition half : Complex :=
  {| Real := Float64.of_Z 1; Imag := S754_zero false |}.

Definition measured : reply :=
  {| status := 0; handle_out := 7; from_out := 500000; to_out := 4000000000;
     s11_out := [half; half; half]; s21_out := [half; half; half];
     s12_out := []; s22_out := [] |}.

Definition attached (c : call) (d : unit) : reply * unit := (measured, d).

(** A library whose calls answer with a status that the table of
    [Samples.table] has no message for. *)
Definition confused (c : call) (d : unit) : reply * unit :=
  (Samples.no_reply 9, d).

Definition forward : SParamSelect :=
  {| SelS11 := true; SelS12 := false; SelS21 := true; SelS22 := false |}.

Definition sweep_of (size : Z) : RangeQuery :=
  {| RqRange := {| Start := 1000; End := 2000 |};
     Size := size;
     LogDistribution := false;
     RqAvg := 1;
     RqSelect := forward;
     RqResult := [] |}.

Definition single : SingleQuery :=
  {| SqFreq := 1500; SqAvg := 1; SqSelect := forward;
     SqResult := {| S11 := zero_sparam; S12 := zero_sparam;
                    S21 := zero_sparam; S22 := zero_sparam; Freq := 0 |} |}.

Definition connected : world unit :=
  {| vna := {| handle := 7 |}; device := tt; calls := []; taken := [];
     sent := [] |}.

(** A [json.Unmarshal] that understands two frames. *)
Definition sample_Unmarshal (data : list Byte.byte) : Report * error :=
  if String.eqb (string_of_list_byte data) "dut" then
    ({| Report_ := "port"; Is := "dut" |}, None)
  else if String.eqb (string_of_list_byte data) "open" then
    ({| Report_ := "port"; Is := "open" |}, None)
  else (Inbound.zero_Report, Some "invalid character"%string).

Definition frame (text : string) : WsMessage :=
  {| Data := list_byte_of_string text; Type_ := TextMessage |}.

End Instances.

(* ================================================================== *)
(** * Theorems *)

(** ** Exact binary64 arithmetic on small integers *)

Module Float64Facts.
Import Float64.


Lemma digits2_pos_size (p : positive) : digits2_pos p = Pos.size p.
Proof. induction p; simpl; congruence. Qed.

Lemma Zdigits2_digits (p : positive) : Zdigits2 (Zpos p) = digits (Zpos p).
Proof.
  unfold digits, Zdigits2. rewrite digits2_pos_size.
  destruct p; simpl; rewrite ?Pos2Z.inj_succ; lia.
Qed.

Lemma digits_bounds (n : Z) :
  0 < n < 2 ^ 53 -> 1 <= digits n <= 53.
Proof.
  intros [Hpos Hlt]. unfold digits.
  pose proof (Z.log2_nonneg n).
  assert (Z.log2 n < 53) by (apply Z.log2_lt_pow2; lia).
  lia.
Qed.

Lemma digits_shift (n k : Z) :
  0 < n -> 0 <= k -> digits (n * 2 ^ k) = digits n + k.
Proof.
  intros Hn Hk. unfold digits. rewrite Z.log2_mul_pow2 by lia. lia.
Qed.

Lemma digits_spec (n : Z) :
  0 < n -> 2 ^ (digits n - 1) <= n < 2 ^ digits n.
Proof.
  intros Hn. unfold digits.
  replace (Z.log2 n + 1 - 1) with (Z.log2 n) by lia.
  replace (Z.log2 n + 1) with (Z.succ (Z.log2 n)) by lia.
  apply Z.log2_spec; assumption.
Qed.

Lemma iter_xO_pow2 (m d : positive) :
  Zpos (Pos.iter xO m d) = Zpos m * 2 ^ Zpos d.
Proof.
  induction d as [|d IH] using Pos.peano_ind.
  - simpl. lia.
  - rewrite Pos.iter_succ, Pos2Z.inj_xO, IH, Pos2Z.inj_succ, Z.pow_succ_r by lia.
    lia.
Qed.

(** One step of the right shift drops a zero bit without recording any
    loss. *)
Lemma shr_1_even (m : Z) :
  0 < m ->
  shr_1 {| shr_m := 2 * m; shr_r := false; shr_s := false |}
  = {| shr_m := m; shr_r := false; shr_s := false |}.
Proof. destruct m; try lia. reflexivity. Qed.

Lemma iter_shr_1_exact (p : positive) :
  forall n k, 0 < n -> Zpos p <= k ->
  iter_pos shr_1 p {| shr_m := n * 2 ^ k; shr_r := false; shr_s := false |}
  = {| shr_m := n * 2 ^ (k - Zpos p); shr_r := false; shr_s := false |}.
Proof.
  assert (Hstep : forall n k, 0 < n -> 1 <= k ->
    shr_1 {| shr_m := n * 2 ^ k; shr_r := false; shr_s := false |}
    = {| shr_m := n * 2 ^ (k - 1); shr_r := false; shr_s := false |}).
  { intros n k Hn Hk.
    replace (n * 2 ^ k) with (2 * (n * 2 ^ (k - 1))).
    - apply shr_1_even. apply Z.mul_pos_pos; [lia | apply Z.pow_pos_nonneg; lia].
    - replace k with (Z.succ (k - 1)) at 2 by lia.
      rewrite Z.pow_succ_r by lia. lia. }
  induction p as [p IH | p IH | ]; intros n k Hn Hk; cbn [iter_pos].
  - rewrite Hstep by lia. rewrite IH by lia. rewrite IH by lia.
    f_equal. f_equal. f_equal. lia.
  - rewrite IH by lia. rewrite IH by lia. f_equal. f_equal. f_equal. lia.
  - apply Hstep; lia.
Qed.

Lemma shr_exact (n k e sh : Z) :
  0 < n -> 0 <= sh <= k ->
  shr {| shr_m := n * 2 ^ k; shr_r := false; shr_s := false |} e sh
  = ({| shr_m := n * 2 ^ (k - sh); shr_r := false; shr_s := false |}, e + sh).
Proof.
  intros Hn Hsh. destruct sh as [|p|p]; try lia; unfold shr.
  - rewrite Z.sub_0_r, Z.add_0_r. reflexivity.
  - rewrite iter_shr_1_exact by lia. reflexivity.
Qed.

Lemma fexp_digits (d : Z) : -1021 <= d -> fexp prec emax d = d - 53.
Proof. intros Hd. unfold fexp, emin, prec, emax. lia. Qed.

Lemma scaled_pos (n k : Z) : 0 < n -> 0 <= k -> 0 < n * 2 ^ k.
Proof.
  intros Hn Hk. apply Z.mul_pos_pos; [assumption | apply Z.pow_pos_nonneg; lia].
Qed.

Lemma Zdigits2_scaled (n k : Z) :
  0 < n -> 0 <= k -> Zdigits2 (n * 2 ^ k) = digits n + k.
Proof.
  intros Hn Hk. pose proof (scaled_pos n k Hn Hk) as Hpos.
  destruct (n * 2 ^ k) as [|p|p] eqn:E; try lia.
  rewrite Zdigits2_digits, <- E. apply digits_shift; assumption.
Qed.

(** Rounding a mantissa [n * 2^k] at exponent [-k], that is the integer
    [n], loses nothing when [n] has at most 53 bits: the result is the
    canonical representation of [n]. *)
Lemma binary_round_aux_exact (n k : Z) :
  0 < n < 2 ^ 53 -> 53 - digits n <= k ->
  binary_round_aux prec emax false (n * 2 ^ k) (- k) loc_Exact = ifloat n.
Proof.
  intros Hn Hk. pose proof (digits_bounds n Hn) as Hd.
  unfold binary_round_aux, shr_fexp.
  rewrite Zdigits2_scaled by lia.
  replace (digits n + k + - k) with (digits n) by lia.
  rewrite fexp_digits by lia.
  cbn [shr_record_of_loc].
  rewrite shr_exact by lia.
  cbn [shr_m loc_of_shr_record round_nearest_even shr_record_of_loc].
  replace (k - (digits n - 53 - - k)) with (53 - digits n) by lia.
  rewrite Zdigits2_scaled by lia.
  replace (- k + (digits n - 53 - - k)) with (digits n - 53) by lia.
  replace (digits n + (53 - digits n) + (digits n - 53)) with (digits n) by lia.
  rewrite fexp_digits by lia.
  rewrite Z.sub_diag. cbn [shr shr_m].
  pose proof (scaled_pos n (53 - digits n)) as Hpos.
  destruct (n * 2 ^ (53 - digits n)) as [|p|p] eqn:E; try lia.
  unfold ifloat. rewrite E. cbn [Z.to_pos].
  unfold emax, prec.
  destruct (digits n - 53 <=? 1024 - 53) eqn:Hle; [reflexivity | lia].
Qed.

Lemma binary_round_exact (mx : positive) (n k : Z) :
  0 < n < 2 ^ 53 -> 0 <= k -> Zpos mx = n * 2 ^ k ->
  binary_round prec emax false mx (- k) = ifloat n.
Proof.
  intros Hn Hk Hmx. pose proof (digits_bounds n Hn) as Hd.
  unfold binary_round.
  change (Zpos (digits2_pos mx)) with (Zdigits2 (Zpos mx)).
  rewrite Hmx, Zdigits2_scaled by lia.
  replace (digits n + k + - k) with (digits n) by lia.
  rewrite fexp_digits by lia.
  unfold shl_align.
  destruct (digits n - 53 - - k) as [|d|d] eqn:E.
  - rewrite Hmx. apply binary_round_aux_exact; lia.
  - rewrite Hmx. apply binary_round_aux_exact; lia.
  - rewrite iter_xO_pow2, Hmx, <- Z.mul_assoc, <- Z.pow_add_r by lia.
    replace (k + Zpos d) with (53 - digits n) by lia.
    replace (digits n - 53) with (- (53 - digits n)) by lia.
    apply binary_round_aux_exact; lia.
Qed.

Lemma binary_normalize_exact (m n k : Z) :
  0 < n < 2 ^ 53 -> 0 <= k -> m = n * 2 ^ k ->
  binary_normalize prec emax m (- k) false = ifloat n.
Proof.
  intros Hn Hk Hm. pose proof (scaled_pos n k) as Hpos.
  destruct m as [|p|p]; try lia.
  unfold binary_normalize. apply binary_round_exact; assumption.
Qed.

(** [float64(n)] is exact for [0 < n < 2^53]. *)
Lemma of_Z_exact (n : Z) : 0 < n < 2 ^ 53 -> of_Z n = ifloat n.
Proof.
  intros Hn. unfold of_Z. change 0 with (- 0) at 1.
  apply binary_normalize_exact; lia.
Qed.

Lemma ifloat_mantissa (n : Z) :
  0 < n < 2 ^ 53 ->
  Zpos (Z.to_pos (n * 2 ^ (53 - digits n))) = n * 2 ^ (53 - digits n).
Proof.
  intros Hn. pose proof (digits_bounds n Hn).
  pose proof (scaled_pos n (53 - digits n)). rewrite Z2Pos.id; lia.
Qed.

(** The product of two integers is exact when it stays below [2^53]. *)
Lemma mul_exact (a b : Z) :
  0 < a -> 0 < b -> a * b < 2 ^ 53 ->
  mul (ifloat a) (ifloat b) = ifloat (a * b).
Proof.
  intros Ha Hb Hab.
  assert (Ha' : 0 < a < 2 ^ 53) by nia.
  assert (Hb' : 0 < b < 2 ^ 53) by nia.
  pose proof (digits_bounds a Ha') as Hda.
  pose proof (digits_bounds b Hb') as Hdb.
  assert (Hmono : digits b <= digits (a * b)).
  { unfold digits. pose proof (Z.log2_le_mono b (a * b)). nia. }
  unfold mul, SFmul, ifloat. cbn [xorb].
  rewrite Pos2Z.inj_mul, !ifloat_mantissa by assumption.
  replace (a * 2 ^ (53 - digits a) * (b * 2 ^ (53 - digits b)))
    with (a * b * 2 ^ (106 - digits a - digits b)).
  - replace (digits a - 53 + (digits b - 53))
      with (- (106 - digits a - digits b)) by lia.
    apply binary_round_aux_exact; lia.
  - replace (106 - digits a - digits b)
      with ((53 - digits a) + (53 - digits b)) by lia.
    rewrite Z.pow_add_r by lia. ring.
Qed.

Lemma div_eucl_exact (q b : Z) : 0 < b -> Z.div_eucl (b * q) b = (q, 0).
Proof.
  intros Hb. pose proof (Z.div_mul q b) as Hq. pose proof (Z.mod_mul q b) as Hr.
  unfold Z.div, Z.modulo in Hq, Hr. rewrite (Z.mul_comm q b) in Hq, Hr.
  destruct (Z.div_eucl (b * q) b) as [q' r'].
  rewrite Hq, Hr by lia. reflexivity.
Qed.

Lemma new_location_zero (nb : Z) : new_location nb 0 = loc_Exact.
Proof.
  unfold new_location, new_location_even, new_location_odd.
  destruct (Z.even nb); reflexivity.
Qed.

(** Dividing the product [n * d] by [n] gives [d] back exactly. *)
Lemma div_exact (n d : Z) :
  0 < n -> 0 < d -> n * d < 2 ^ 53 ->
  div (ifloat (n * d)) (ifloat n) = ifloat d.
Proof.
  intros Hn Hd Hnd.
  assert (Hn' : 0 < n < 2 ^ 53) by nia.
  assert (Hd' : 0 < d < 2 ^ 53) by nia.
  assert (Hnd' : 0 < n * d < 2 ^ 53) by nia.
  pose proof (digits_bounds n Hn') as Hdn.
  pose proof (digits_bounds d Hd') as Hdd.
  pose proof (digits_bounds (n * d) Hnd') as Hdnd.
  assert (Habove : digits (n * d) <= digits n + digits d).
  { unfold digits. pose proof (Z.log2_mul_above n d). lia. }
  unfold div, SFdiv, ifloat. cbn [xorb].
  unfold SFdiv_core_binary.
  rewrite !ifloat_mantissa by assumption.
  rewrite !Zdigits2_scaled by lia.
  replace (digits (n * d) + (53 - digits (n * d)) + (digits (n * d) - 53)
           - (digits n + (53 - digits n) + (digits n - 53)))
    with (digits (n * d) - digits n) by lia.
  rewrite fexp_digits by lia.
  rewrite Z.min_l by lia.
  replace (digits (n * d) - 53 - (digits n - 53)
           - (digits (n * d) - digits n - 53)) with 53 by lia.
  rewrite Z.shiftl_mul_pow2 by lia.
  replace (n * d * 2 ^ (53 - digits (n * d)) * 2 ^ 53)
    with (n * 2 ^ (53 - digits n)
          * (d * 2 ^ (53 - digits (n * d) + digits n))).
  - rewrite div_eucl_exact by (apply scaled_pos; lia).
    rewrite new_location_zero.
    replace (digits (n * d) - digits n - 53)
      with (- (53 - digits (n * d) + digits n)) by lia.
    apply binary_round_aux_exact; lia.
  - replace (53 - digits (n * d) + digits n)
      with ((53 - digits (n * d)) + digits n) by lia.
    replace 53 with ((53 - digits n) + digits n) at 4 by lia.
    rewrite !Z.pow_add_r by lia. ring.
Qed.

Lemma shl_align_value (mx : positive) (ex ez : Z) :
  ez <= ex -> Zpos (fst (shl_align mx ex ez)) = Zpos mx * 2 ^ (ex - ez).
Proof.
  intros Hle. unfold shl_align.
  destruct (ez - ex) as [|d|d] eqn:E; try lia; cbn [fst].
  - replace (ex - ez) with 0 by lia. lia.
  - rewrite iter_xO_pow2. f_equal. f_equal. lia.
Qed.

(** The mantissa of [ifloat n], aligned to a smaller exponent [ez], is
    [n * 2^(-ez)]. *)
Lemma ifloat_aligned (n ez : Z) :
  0 < n < 2 ^ 53 -> ez <= digits n - 53 ->
  Zpos (fst (shl_align (Z.to_pos (n * 2 ^ (53 - digits n))) (digits n - 53) ez))
  = n * 2 ^ (- ez).
Proof.
  intros Hn Hez. pose proof (digits_bounds n Hn).
  rewrite shl_align_value, ifloat_mantissa by assumption.
  rewrite <- Z.mul_assoc, <- Z.pow_add_r by lia.
  f_equal. f_equal. lia.
Qed.

(** Differences and sums of integers below [2^53] are exact. *)
Lemma sub_exact (a b : Z) :
  0 < b -> b < a -> a < 2 ^ 53 ->
  sub (ifloat a) (ifloat b) = ifloat (a - b).
Proof.
  intros Hb Hba Ha.
  assert (Ha' : 0 < a < 2 ^ 53) by lia.
  assert (Hb' : 0 < b < 2 ^ 53) by lia.
  pose proof (digits_bounds a Ha'). pose proof (digits_bounds b Hb').
  unfold sub, SFsub, ifloat. cbn [cond_Zopp].
  set (ez := Z.min (digits a - 53) (digits b - 53)).
  assert (Hez : ez <= digits a - 53 /\ ez <= digits b - 53) by lia.
  rewrite !ifloat_aligned by lia.
  replace ez with (- (- ez)) at 3 by lia.
  apply binary_normalize_exact; try lia; ring.
Qed.

Lemma add_exact (a b : Z) :
  0 < a -> 0 < b -> a + b < 2 ^ 53 ->
  add (ifloat a) (ifloat b) = ifloat (a + b).
Proof.
  intros Ha Hb Hab.
  assert (Ha' : 0 < a < 2 ^ 53) by lia.
  assert (Hb' : 0 < b < 2 ^ 53) by lia.
  pose proof (digits_bounds a Ha'). pose proof (digits_bounds b Hb').
  unfold add, SFadd, ifloat. cbn [cond_Zopp].
  set (ez := Z.min (digits a - 53) (digits b - 53)).
  assert (Hez : ez <= digits a - 53 /\ ez <= digits b - 53) by lia.
  rewrite !ifloat_aligned by lia.
  replace ez with (- (- ez)) at 3 by lia.
  apply binary_normalize_exact; try lia; ring.
Qed.

(** Converting back to [uint64] returns the integer. *)
Lemma to_uint64_exact (n : Z) : 0 < n < 2 ^ 53 -> to_uint64 (ifloat n) = n.
Proof.
  intros Hn. pose proof (digits_bounds n Hn) as Hd.
  assert (Hcut : of_Z (2 ^ 63) = S754_finite false 4503599627370496 11)
    by (vm_compute; reflexivity).
  assert (Htr : trunc (ifloat n) = Some n).
  { unfold trunc, ifloat. cbn [cond_Zopp]. rewrite ifloat_mantissa by assumption.
    destruct (digits n - 53) as [|p|p] eqn:E; try lia.
    - replace (53 - digits n) with 0 by lia. f_equal. lia.
    - replace (53 - digits n) with (Zpos p) by lia.
      rewrite Z.div_mul by (apply Z.pow_nonzero; lia). reflexivity. }
  unfold to_uint64. rewrite Hcut.
  assert (Hlt : ltb (ifloat n) (S754_finite false 4503599627370496 11) = true).
  { unfold ltb, SFltb, SFcompare, ifloat.
    rewrite (proj2 (Z.compare_lt_iff _ _)) by lia. reflexivity. }
  rewrite Hlt. unfold cvttsd2sq. rewrite Htr.
  destruct ((- 2 ^ 63 <=? n) && (n <? 2 ^ 63)) eqn:Hr.
  - apply Z.mod_small. lia.
  - apply andb_false_iff in Hr. destruct Hr as [Hr | Hr]; lia.
Qed.

End Float64Facts.

(** ** Sweep generator *)

Module SweepFacts.
Import Float64 Float64Facts Sweep Samples.

Lemma of_Z_zero : of_Z 0 = S754_zero false.
Proof. reflexivity. Qed.

Lemma indices_length (size : Z) : List.length (indices size) = Z.to_nat size.
Proof. unfold indices. rewrite length_map, length_seq. reflexivity. Qed.

Lemma indices_last (size : Z) :
  1 <= size -> indices size = indices (size - 1) ++ [size - 1].
Proof.
  intros Hsize. unfold indices.
  replace (Z.to_nat size) with (S (Z.to_nat (size - 1))) by lia.
  rewrite seq_S, map_app. cbn [map Nat.add]. f_equal. f_equal. lia.
Qed.

Lemma indices_nth (size i : Z) :
  0 <= i < size -> nth_error (indices size) (Z.to_nat i) = Some i.
Proof.
  intros Hi. unfold indices.
  rewrite nth_error_map, nth_error_seq.
  destruct (Nat.ltb_spec (Z.to_nat i) (Z.to_nat size)) as [_ | Hge]; [|lia].
  cbn. f_equal. lia.
Qed.

(** The divisor [float64(size) - 1] is the integer [size - 1]. *)
Lemma denominator_exact (size : Z) :
  2 <= size < 2 ^ 53 -> sub (of_Z size) one = ifloat (size - 1).
Proof.
  intros Hsize. unfold one. rewrite !of_Z_exact by lia.
  apply sub_exact; lia.
Qed.

(** At the last counter the linear formula reproduces [end_] without
    rounding, as long as every intermediate integer fits in 53 bits. *)
Lemma LinPoint_last (start end_ size : Z) :
  0 <= start < end_ -> end_ < 2 ^ 53 -> 2 <= size < 2 ^ 53 ->
  (size - 1) * (end_ - start) < 2 ^ 53 ->
  LinPoint start end_ size (size - 1) = end_.
Proof.
  intros Hse Hend Hsize Hprod.
  unfold LinPoint. rewrite denominator_exact by lia.
  rewrite (of_Z_exact end_), (of_Z_exact (size - 1)) by lia.
  destruct (Z.eq_dec start 0) as [-> | Hnz].
  - rewrite of_Z_zero.
    change (sub (ifloat end_) (S754_zero false)) with (ifloat end_).
    rewrite mul_exact, div_exact by lia.
    change (add (S754_zero false) (ifloat end_)) with (ifloat end_).
    apply to_uint64_exact; lia.
  - rewrite (of_Z_exact start) by lia.
    rewrite sub_exact by lia.
    rewrite mul_exact, div_exact by lia.
    rewrite add_exact by lia.
    replace (start + (end_ - start)) with end_ by lia.
    apply to_uint64_exact; lia.
Qed.

(** C1 (as amended). The linear generator has no special case for the last
    counter: every point, the last one included, goes through the same
    float64 formula. For [0 <= start < end < 2^53], [2 <= size < 2^53] and
    [(size-1) * (end-start) < 2^53] that formula is exact at the last counter,
    so the sequence has [size] elements and its last element is [end]; and
    [LinFrequency(0, 1000, 5)] is [[0, 250, 500, 750, 1000]]. *)
Theorem LinFrequency_last_is_end (start end_ size : Z) :
  0 <= start < end_ -> end_ < 2 ^ 53 -> 2 <= size < 2 ^ 53 ->
  (size - 1) * (end_ - start) < 2 ^ 53 ->
  List.length (LinFrequency start end_ size) = Z.to_nat size
  /\ last (LinFrequency start end_ size) 0 = end_
  /\ LinFrequency 0 1000 5 = [0; 250; 500; 750; 1000].
Proof.
  intros Hse Hend Hsize Hprod. split; [|split].
  - unfold LinFrequency. rewrite length_map. apply indices_length.
  - unfold LinFrequency. rewrite indices_last, map_app by lia.
    cbn [map]. rewrite last_last. apply LinPoint_last; assumption.
  - vm_compute. reflexivity.
Qed.

Lemma LinFrequency_last_is_end_witness :
  List.length (LinFrequency 1000000 6000000000 512) = Z.to_nat 512
  /\ last (LinFrequency 1000000 6000000000 512) 0 = 6000000000
  /\ LinFrequency 0 1000 5 = [0; 250; 500; 750; 1000].
Proof. apply (LinFrequency_last_is_end 1000000 6000000000 512); lia. Defined.

(** C1, as stated, fails: the end frequency [2^53 + 1] is not a float64,
    the formula works on its neighbour [2^53], and nothing assigns [end] to
    the last point. *)
Lemma LinFrequency_last_counterexample :
  LinFrequency 0 9007199254740993 2 = [0; 9007199254740992]
  /\ last (LinFrequency 0 9007199254740993 2) 0 <> 9007199254740993.
Proof. split; [vm_compute; reflexivity | vm_compute; discriminate]. Qed.

Lemma LinFrequency_length (start end_ size : Z) :
  List.length (LinFrequency start end_ size) = Z.to_nat size.
Proof. unfold LinFrequency. rewrite length_map. apply indices_length. Qed.

Lemma LogFrequency_length Pow (start end_ size : Z) :
  List.length (LogFrequency Pow start end_ size) = Z.to_nat size.
Proof. unfold LogFrequency. rewrite length_map. apply indices_length. Qed.

(** With one point the quotient of the linear formula is [0/0], a NaN,
    whatever the bounds; the sum is a NaN and its conversion on amd64 is
    [2^63]. *)
Lemma LinPoint_single (start end_ : Z) :
  LinPoint start end_ 1 0 = 9223372036854775808.
Proof.
  unfold LinPoint.
  change (sub (of_Z 1) one) with (S754_zero false).
  change (of_Z 0) with (S754_zero false).
  generalize (sub (of_Z end_) (of_Z start)) as x.
  generalize (of_Z start) as s.
  intros s x. destruct x, s; reflexivity.
Qed.

(** C3 (as amended). Neither generator validates [size] or has a way to
    report an error: the result is the bare sequence. With [size = 1] each
    evaluates its formula once, with the zero denominator: float64 division
    gives a NaN instead of a fault, the linear generator returns the single
    element [uint64(NaN)], which is [2^63] on amd64, and the logarithmic one
    returns the single element obtained from [Pow(end/start, NaN)]. With
    [size <= 0] both return the empty sequence, and in general both return
    [size] elements. *)
Theorem generators_do_not_validate Pow (start end_ : Z) :
  LinFrequency start end_ 1 = [9223372036854775808]
  /\ LogFrequency Pow start end_ 1
     = [to_uint64 (Round (mul (of_Z start)
                             (Pow (div (of_Z end_) (of_Z start)) S754_nan)))]
  /\ (forall size : Z,
        List.length (LinFrequency start end_ size) = Z.to_nat size
        /\ List.length (LogFrequency Pow start end_ size) = Z.to_nat size).
Proof.
  split; [|split].
  - unfold LinFrequency. change (indices 1) with [0]. cbn [map].
    rewrite LinPoint_single. reflexivity.
  - reflexivity.
  - intros size. split; [apply LinFrequency_length | apply LogFrequency_length].
Qed.

(** C3, as stated, fails: a request for one point between 0 and 1000 Hz is
    not rejected, a sequence of one point comes back. *)
Lemma generators_single_point_counterexample :
  LinFrequency 0 1000 1 = [9223372036854775808]
  /\ LinFrequency 0 1000 1 <> [].
Proof. split; [vm_compute; reflexivity | vm_compute; discriminate]. Qed.

(** *** Rounding against truncation *)

Lemma valid_mantissa (s : bool) (m : positive) (e : Z) :
  valid_binary prec emax (S754_finite s m e) = true ->
  Zpos m < 2 ^ 53 /\ (-1074 < e -> 2 ^ 52 <= Zpos m).
Proof.
  unfold valid_binary, bounded, canonical_mantissa. intros H.
  apply andb_true_iff in H. destruct H as [Hc _].
  apply Z.eqb_eq in Hc.
  change (Zpos (digits2_pos m)) with (Zdigits2 (Zpos m)) in Hc.
  rewrite Zdigits2_digits in Hc. unfold fexp, emin, prec, emax in Hc.
  pose proof (digits_spec (Zpos m) ltac:(lia)) as [Hlo Hhi].
  split.
  - assert (digits (Zpos m) <= 53) by lia.
    assert (2 ^ digits (Zpos m) <= 2 ^ 53)
      by (apply Z.pow_le_mono_r; lia).
    lia.
  - intros He. replace (digits (Zpos m)) with 53 in Hlo by lia. exact Hlo.
Qed.

(** On a valid non-negative float below [2^63] the conversion to [uint64]
    is the integer part. *)
Lemma to_uint64_finite (m : positive) (e : Z) :
  valid_binary prec emax (S754_finite false m e) = true ->
  (0 <= e -> Zpos m * 2 ^ e < 2 ^ 63) ->
  to_uint64 (S754_finite false m e)
  = match e with
    | Zneg p => Zpos m / 2 ^ Zpos p
    | _ => Zpos m * 2 ^ e
    end.
Proof.
  intros Hvalid Hsmall.
  destruct (valid_mantissa _ _ _ Hvalid) as [Hm Hnormal].
  assert (He : e < 11).
  { destruct (Z.lt_ge_cases e 11) as [|Hge]; [assumption|exfalso].
    assert (2 ^ 52 * 2 ^ 11 <= Zpos m * 2 ^ e).
    { apply Z.mul_le_mono_nonneg; try lia. apply Z.pow_le_mono_r; lia. }
    specialize (Hsmall ltac:(lia)). lia. }
  assert (Hcut : of_Z (2 ^ 63) = S754_finite false 4503599627370496 11)
    by (vm_compute; reflexivity).
  unfold to_uint64. rewrite Hcut.
  assert (Hlt : ltb (S754_finite false m e)
                  (S754_finite false 4503599627370496 11) = true).
  { unfold ltb, SFltb, SFcompare.
    rewrite (proj2 (Z.compare_lt_iff _ _)) by lia. reflexivity. }
  rewrite Hlt. unfold cvttsd2sq, trunc. cbn [cond_Zopp].
  set (z := match e with
            | Zneg p => Zpos m / 2 ^ Zpos p
            | _ => Zpos m * 2 ^ e
            end).
  assert (Hz : 0 <= z < 2 ^ 63).
  { subst z. destruct e as [|p|p].
    - specialize (Hsmall ltac:(lia)). lia.
    - specialize (Hsmall ltac:(lia)). lia.
    - assert (0 < 2 ^ Zpos p) by (apply Z.pow_pos_nonneg; lia).
      split; [apply Z.div_pos; lia|].
      apply Z.le_lt_trans with (Zpos m); [|lia].
      apply Z.div_le_upper_bound; nia. }
  destruct ((- 2 ^ 63 <=? z) && (z <? 2 ^ 63)) eqn:Hr.
  - apply Z.mod_small. lia.
  - apply andb_false_iff in Hr. destruct Hr as [Hr | Hr]; lia.
Qed.

(** The integer that [math.Round] makes of a valid non-negative float with
    a fractional part, and its conversion. *)
Lemma to_uint64_Round (m p : positive) :
  valid_binary prec emax (S754_finite false m (Zneg p)) = true ->
  to_uint64 (Round (S754_finite false m (Zneg p)))
  = if 2 ^ Zpos p <=? 2 * (Zpos m mod 2 ^ Zpos p)
    then Zpos m / 2 ^ Zpos p + 1 else Zpos m / 2 ^ Zpos p.
Proof.
  intros Hvalid. destruct (valid_mantissa _ _ _ Hvalid) as [Hm _].
  assert (Hpow : 2 <= 2 ^ Zpos p).
  { change 2 with (2 ^ 1) at 1. apply Z.pow_le_mono_r; lia. }
  assert (Hq : 0 <= Zpos m / 2 ^ Zpos p < 2 ^ 52).
  { split; [apply Z.div_pos; lia|].
    apply Z.div_lt_upper_bound; lia. }
  unfold Round. cbn [cond_Zopp].
  set (n := if 2 ^ Zpos p <=? 2 * (Zpos m mod 2 ^ Zpos p)
            then Zpos m / 2 ^ Zpos p + 1 else Zpos m / 2 ^ Zpos p).
  assert (Hn : 0 <= n < 2 ^ 53).
  { subst n. destruct (2 ^ Zpos p <=? 2 * (Zpos m mod 2 ^ Zpos p)); lia. }
  destruct (Z.eq_dec n 0) as [-> | Hnz]; [reflexivity|].
  change 0 with (- 0) at 1.
  rewrite (binary_normalize_exact n n 0) by lia.
  apply to_uint64_exact; lia.
Qed.

Lemma nearest_Q (m n c : Z) :
  0 < c -> (2 * n - 1) * c <= 2 * m -> 2 * m < (2 * n + 1) * c ->
  (inject_Z n - (1 # 2) <= inject_Z m / inject_Z c
   < inject_Z n + (1 # 2))%Q.
Proof.
  intros Hc Hlo Hhi. destruct c as [|c|c]; try lia.
  unfold Qle, Qlt, Qdiv, Qmult, Qinv, Qminus, Qplus, Qopp, inject_Z.
  cbn [Qnum Qden]. split; nia.
Qed.

Lemma floor_Q (m n c : Z) :
  0 < c -> n * c <= m -> m < (n + 1) * c ->
  (inject_Z n <= inject_Z m / inject_Z c < inject_Z n + 1)%Q.
Proof.
  intros Hc Hlo Hhi. destruct c as [|c|c]; try lia.
  unfold Qle, Qlt, Qdiv, Qmult, Qinv, Qminus, Qplus, Qopp, inject_Z.
  cbn [Qnum Qden]. split; nia.
Qed.

Lemma negative_Q (m c : Z) :
  m < 0 -> 0 < c -> ~ (0 <= inject_Z m / inject_Z c)%Q.
Proof.
  intros Hm Hc. destruct c as [|c|c]; try lia.
  unfold Qle, Qdiv, Qmult, Qinv, inject_Z. cbn [Qnum Qden]. nia.
Qed.

(** [uint64(math.Round(x))] is the integer nearest to [x], halves going
    up, and [uint64(x)] is the integer part of [x], for every valid float
    [x] with [0 <= x < 2^63]. *)
Lemma round_against_truncation (x : float64) (q : Q) :
  valid_binary prec emax x = true ->
  to_Q x = Some q -> (0 <= q)%Q -> (q < inject_Z (2 ^ 63))%Q ->
  (inject_Z (to_uint64 (Round x)) - (1 # 2) <= q
   < inject_Z (to_uint64 (Round x)) + (1 # 2))%Q
  /\ (inject_Z (to_uint64 x) <= q < inject_Z (to_uint64 x) + 1)%Q.
Proof.
  intros Hvalid Hq Hpos Hsmall.
  destruct x as [s | s | | s m e]; try discriminate.
  - injection Hq as <-.
    assert (E : to_uint64 (S754_zero s) = 0) by (destruct s; reflexivity).
    cbn [Round]. rewrite E.
    unfold Qle, Qlt, Qminus, Qplus, Qopp, inject_Z. cbn. lia.
  - cbn [to_Q] in Hq. injection Hq as <-.
    destruct s.
    + exfalso. cbn [cond_Zopp] in Hpos. destruct e as [|e|p].
      * unfold Qle, inject_Z in Hpos. cbn in Hpos. lia.
      * assert (0 < 2 ^ Zpos e) by (apply Z.pow_pos_nonneg; lia).
        change (inject_Z 0 <= inject_Z (- Zpos m * 2 ^ Zpos e))%Q in Hpos.
        rewrite <- Zle_Qle in Hpos. nia.
      * change (Z.pow_pos 2 p) with (2 ^ Zpos p) in *.
        revert Hpos. apply negative_Q; [lia|].
        apply Z.pow_pos_nonneg; lia.
    + cbn [cond_Zopp] in *. destruct e as [|e|p].
      * assert (Hm : Zpos m * 2 ^ 0 < 2 ^ 63)
          by (rewrite <- Zlt_Qlt in Hsmall; exact Hsmall).
        cbn [Round]. rewrite to_uint64_finite by (assumption || intros _; exact Hm).
        unfold Qle, Qlt, Qminus, Qplus, Qopp, inject_Z. cbn [Qnum Qden]. lia.
      * assert (Hm : Zpos m * 2 ^ Zpos e < 2 ^ 63)
          by (rewrite <- Zlt_Qlt in Hsmall; exact Hsmall).
        cbn [Round]. rewrite to_uint64_finite by (assumption || intros _; exact Hm).
        unfold Qle, Qlt, Qminus, Qplus, Qopp, inject_Z. cbn [Qnum Qden]. lia.
      * change (Z.pow_pos 2 p) with (2 ^ Zpos p) in *.
        assert (Hc : 0 < 2 ^ Zpos p) by (apply Z.pow_pos_nonneg; lia).
        pose proof (Z.div_mod (Zpos m) (2 ^ Zpos p) ltac:(lia)) as Hdm.
        pose proof (Z.mod_pos_bound (Zpos m) (2 ^ Zpos p) Hc) as Hr.
        rewrite to_uint64_Round by assumption.
        rewrite to_uint64_finite by (assumption || lia).
        split.
        -- apply nearest_Q; [assumption | |];
             destruct (Z.leb_spec (2 ^ Zpos p) (2 * (Zpos m mod 2 ^ Zpos p)));
             nia.
        -- apply floor_Q; [assumption | |]; nia.
Qed.

(** C6. At every counter [0 <= i < size] the logarithmic generator
    produces [uint64(math.Round(s * math.Pow(e/s, i/(size-1))))], computed in
    float64 from [s = float64(start)] and [e = float64(end)], where the linear
    generator produces [uint64] of its float, without [math.Round]; and on
    every valid float [x] with [0 <= x < 2^63] the first conversion is the
    nearest integer, the second the integer part. *)
Theorem LogFrequency_rounds Pow (start end_ size i : Z) :
  0 <= i < size ->
  nth_error (LogFrequency Pow start end_ size) (Z.to_nat i)
  = Some (to_uint64
            (Round (mul (of_Z start)
                      (Pow (div (of_Z end_) (of_Z start))
                         (div (of_Z i) (sub (of_Z size) one))))))
  /\ nth_error (LinFrequency start end_ size) (Z.to_nat i)
     = Some (to_uint64
               (add (of_Z start)
                  (div (mul (of_Z i) (sub (of_Z end_) (of_Z start)))
                     (sub (of_Z size) one))))
  /\ (forall (x : float64) (q : Q),
        valid_binary prec emax x = true ->
        to_Q x = Some q -> (0 <= q)%Q -> (q < inject_Z (2 ^ 63))%Q ->
        (inject_Z (to_uint64 (Round x)) - (1 # 2) <= q
         < inject_Z (to_uint64 (Round x)) + (1 # 2))%Q
        /\ (inject_Z (to_uint64 x) <= q < inject_Z (to_uint64 x) + 1)%Q).
Proof.
  intros Hi. split; [|split].
  - unfold LogFrequency. rewrite nth_error_map, indices_nth by assumption.
    reflexivity.
  - unfold LinFrequency. rewrite nth_error_map, indices_nth by assumption.
    reflexivity.
  - apply round_against_truncation.
Qed.

Lemma LogFrequency_rounds_witness :
  nth_error (LogFrequency pow_sample 1 1000 4) (Z.to_nat 2)
  = Some (to_uint64
            (Round (mul (of_Z 1)
                      (pow_sample (div (of_Z 1000) (of_Z 1))
                         (div (of_Z 2) (sub (of_Z 4) one))))))
  /\ nth_error (LinFrequency 1 1000 4) (Z.to_nat 2)
     = Some (to_uint64
               (add (of_Z 1)
                  (div (mul (of_Z 2) (sub (of_Z 1000) (of_Z 1)))
                     (sub (of_Z 4) one)))).
Proof.
  destruct (LogFrequency_rounds pow_sample 1 1000 4 2) as [Hlog [Hlin _]];
    [lia | split; assumption].
Defined.

End SweepFacts.

(** ** Status decoder *)

Module DecoderFacts.
Import Pocket.

Lemma Results_index_in_range (Results : list string) (i : Z) (msg : string) :
  0 <= i -> nth_error Results (Z.to_nat i) = Some msg ->
  Results_index Results i = Returns msg.
Proof.
  intros Hi Hnth. unfold Results_index.
  destruct (Z.ltb_spec i 0) as [Hneg | _]; [lia|].
  rewrite Hnth. reflexivity.
Qed.

Lemma Results_index_out_of_range (Results : list string) (i : Z) :
  i < 0 \/ Z.of_nat (List.length Results) <= i ->
  Results_index Results i = Panics "index out of range".
Proof.
  intros Hi. unfold Results_index.
  destruct (Z.ltb_spec i 0) as [Hneg | Hpos]; [reflexivity|].
  destruct (nth_error Results (Z.to_nat i)) as [msg|] eqn:Hnth; [|reflexivity].
  assert (Z.to_nat i < List.length Results)%nat
    by (apply nth_error_Some; congruence).
  lia.
Qed.

(** C5. [decode 0] is [nil]; [decode 255] is the last message of the
    table, however long the table is; and every other code [0 < code <
    len(Results)] gets the message at index [code]. (255 is the sentinel of
    the case before: it never reaches the indexing by [code].) *)
Theorem decode_in_domain (Results : list string) :
  decode Results 0 = Returns None
  /\ (forall (init : list string) (final : string),
        Results = init ++ [final] ->
        decode Results 255 = Returns (errors_New final))
  /\ (forall code : Z,
        0 < code < Z.of_nat (List.length Results) -> code <> 255 ->
        exists msg : string,
          nth_error Results (Z.to_nat code) = Some msg
          /\ decode Results code = Returns (errors_New msg)).
Proof.
  split; [reflexivity | split].
  - intros init final ->. unfold decode. cbn [Z.eqb].
    rewrite (Results_index_in_range _ _ final).
    + reflexivity.
    + rewrite length_app. cbn [List.length]. lia.
    + rewrite length_app. cbn [List.length].
      replace (Z.to_nat (Z.of_nat (List.length init + 1) - 1))
        with (List.length init) by lia.
      rewrite nth_error_app2, Nat.sub_diag by lia. reflexivity.
  - intros code Hrange H255.
    destruct (nth_error Results (Z.to_nat code)) as [msg|] eqn:Hnth.
    + exists msg. split; [reflexivity|]. unfold decode.
      destruct (Z.eqb_spec code 0) as [-> | _]; [lia|].
      destruct (Z.eqb_spec code 255) as [-> | _]; [lia|].
      rewrite (Results_index_in_range _ _ msg) by (assumption || lia).
      reflexivity.
    + apply nth_error_None in Hnth. lia.
Qed.

Lemma decode_in_domain_witness :
  decode ["Ok"; "No device"; "Bad handle"; "Other"]%string 0 = Returns None
  /\ decode ["Ok"; "No device"; "Bad handle"; "Other"]%string 255
     = Returns (Some "Other"%string)
  /\ exists msg : string,
       nth_error ["Ok"; "No device"; "Bad handle"; "Other"]%string
         (Z.to_nat 2) = Some msg
       /\ decode ["Ok"; "No device"; "Bad handle"; "Other"]%string 2
          = Returns (errors_New msg).
Proof.
  pose proof
    (decode_in_domain ["Ok"; "No device"; "Bad handle"; "Other"]%string)
    as [H0 [H255 Hcode]].
  split; [exact H0 | split].
  - exact (H255 ["Ok"; "No device"; "Bad handle"]%string "Other"%string
             eq_refl).
  - apply Hcode; [cbn; lia | lia].
Defined.

(** C10. Outside that domain [decode] is partial: a code other than 0 and
    255 that is negative or not below the length of the table makes the
    indexing [Results[code]] panic; no error value is returned. *)
Theorem decode_out_of_domain (Results : list string) (code : Z) :
  code <> 0 -> code <> 255 ->
  code < 0 \/ Z.of_nat (List.length Results) <= code ->
  decode Results code = Panics "index out of range".
Proof.
  intros H0 H255 Hout. unfold decode.
  destruct (Z.eqb_spec code 0) as [-> | _]; [lia|].
  destruct (Z.eqb_spec code 255) as [-> | _]; [lia|].
  rewrite Results_index_out_of_range by assumption. reflexivity.
Qed.

Lemma decode_out_of_domain_witness :
  decode ["Ok"; "No device"; "Bad handle"; "Other"]%string 4
  = Panics "index out of range".
Proof.
  apply (decode_out_of_domain ["Ok"; "No device"; "Bad handle"; "Other"]%string 4);
    [lia | lia | right; cbn; lia].
Defined.

End DecoderFacts.

(** ** Dispatcher and device actor *)

Module ActorFacts.
Import Pocket Samples.

Lemma array_index_panic (a : list Complex) (i : Z) (p : string) :
  array_index a i = Panics p -> p = "index out of range"%string.
Proof.
  unfold array_index. destruct ((0 <=? i) && (i <? capacity)); congruence.
Qed.

Lemma slice_index_panic (ff : list Z) (i : Z) (p : string) :
  slice_index ff i = Panics p -> p = "index out of range"%string.
Proof.
  unfold slice_index. destruct (i <? 0); [congruence|].
  destruct (nth_error ff (Z.to_nat i)); congruence.
Qed.

Lemma array_index_beyond (a : list Complex) (i : Z) :
  capacity <= i -> array_index a i = Panics "index out of range".
Proof.
  intros Hi. unfold array_index.
  destruct (Z.ltb_spec i capacity) as [Hlt | _]; [lia|].
  rewrite andb_false_r. reflexivity.
Qed.

(** The copying loop cannot get past a counter beyond the capacity of the
    buffers. *)
Lemma copy_points_beyond (r : reply) (ff : list Z) (counters : list Z) :
  forall (ss : list SParam) (i : Z),
    In i counters -> capacity <= i ->
    copy_points r ff ss counters = Panics "index out of range".
Proof.
  induction counters as [|c rest IH]; intros ss i Hin Hi; [destruct Hin|].
  cbn [copy_points].
  destruct Hin as [-> | Hin].
  - rewrite array_index_beyond by assumption. reflexivity.
  - destruct (array_index (s11_out r) c) as [a11|p] eqn:E11;
      [|apply array_index_panic in E11; congruence].
    destruct (array_index (s12_out r) c) as [a12|p] eqn:E12;
      [|apply array_index_panic in E12; congruence].
    destruct (array_index (s21_out r) c) as [a21|p] eqn:E21;
      [|apply array_index_panic in E21; congruence].
    destruct (array_index (s22_out r) c) as [a22|p] eqn:E22;
      [|apply array_index_panic in E22; congruence].
    destruct (slice_index ff c) as [f|p] eqn:Eff;
      [|apply slice_index_panic in Eff; congruence].
    apply (IH _ i); assumption.
Qed.

Lemma capacity_in_indices (size : Z) :
  capacity < size -> In capacity (Sweep.indices size).
Proof.
  intros Hsize. unfold Sweep.indices. apply in_map_iff.
  exists (Z.to_nat capacity). split; [unfold capacity; lia|].
  apply in_seq. unfold capacity in *. lia.
Qed.

Section Dispatch.

Variable Results : list string.
Variable Pow : Float64.float64 -> Float64.float64 -> Float64.float64.
Variable D : Type.
Variable native : call -> D -> reply * D.

(** C2 fails on the code, this is what it does instead. A sweep request for
    more than 512 points is not checked: the dispatcher first makes the
    library call with the requested count and the 512-entry buffers, and then
    the loop that copies the buffers panics at index 512. No error result is
    produced. *)
Theorem oversize_sweep_is_not_validated (r : RangeQuery) (w : world D) :
  capacity < Size r ->
  HandleCommand Results Pow D native (CmdRangeQuery r) w
  = (Panics "index out of range",
     {| vna := vna w;
        device := snd (native (sweep_call (handle (vna w)) r) (device w));
        calls := calls w ++ [sweep_call (handle (vna w)) r];
        taken := taken w;
        sent := sent w |}).
Proof.
  intros Hsize.
  unfold HandleCommand, VNA_RangeQuery, rangeQuery, bind, get_handle, C_call,
    lift.
  fold (sweep_call (handle (vna w)) r).
  destruct (native (sweep_call (handle (vna w)) r) (device w)) as [rep d].
  cbn [snd].
  rewrite (copy_points_beyond _ _ _ _ capacity)
    by (try apply capacity_in_indices; unfold capacity in *; lia).
  reflexivity.
Qed.

(** A failed [Connect] leaves one library call behind and nothing else. *)
Lemma Connect_failure (w w1 : world D) (msg : string) :
  Connect Results D native w = (Returns (Some msg), w1) ->
  w1 = {| vna := vna w;
          device := snd (native pocketvna_get_first_device_handle (device w));
          calls := calls w ++ [pocketvna_get_first_device_handle];
          taken := taken w;
          sent := sent w |}.
Proof.
  unfold Connect, getFirstDeviceHandle, bind, C_call, lift, ret, set_handle.
  destruct (native pocketvna_get_first_device_handle (device w)) as [rep d].
  cbn [snd].
  destruct (decode Results (status rep)) as [[m|]|p]; cbn; congruence.
Qed.

(** C9. When the connect attempt of [Run] fails with an error, the actor
    writes that one error result to the result channel and returns: the only
    library call is the single attempt to get a handle, no command is taken
    from the command channel, whatever is waiting there, and the handle is
    left unset. *)
Theorem Run_connect_failure (events : list event) (w w1 : world D)
    (msg : string) :
  Connect Results D native w = (Returns (Some msg), w1) ->
  Run Results Pow D native events w
  = (Returns Returned,
     {| vna := vna w;
        device := snd (native pocketvna_get_first_device_handle (device w));
        calls := calls w ++ [pocketvna_get_first_device_handle];
        taken := taken w;
        sent := sent w ++ [error_result msg] |}).
Proof.
  intros Hconnect. pose proof (Connect_failure _ _ _ Hconnect) as Hw1.
  unfold Run, bind. rewrite Hconnect. subst w1. reflexivity.
Qed.

End Dispatch.


Lemma oversize_sweep_is_not_validated_witness :
  HandleCommand table pow_sample unit present (CmdRangeQuery sweep_513)
    (initial tt)
  = (Panics "index out of range",
     {| vna := {| handle := 0 |};
        device := tt;
        calls := [pocketvna_range_query 0 1000000 2000000 513 1 1 3];
        taken := [];
        sent := [] |}).
Proof.
  apply (oversize_sweep_is_not_validated table pow_sample unit present
           sweep_513 (initial tt)).
  unfold capacity. cbn. lia.
Defined.

Lemma Run_connect_failure_witness :
  Run table pow_sample unit absent
    [EvCommand (CmdRangeQuery sweep_513); EvDone] (initial tt)
  = (Returns Returned,
     {| vna := {| handle := 0 |};
        device := tt;
        calls := [pocketvna_get_first_device_handle];
        taken := [];
        sent := [error_result "No device"] |}).
Proof.
  apply (Run_connect_failure table pow_sample unit absent
           [EvCommand (CmdRangeQuery sweep_513); EvDone] (initial tt)
           (snd (Connect table unit absent (initial tt)))).
  reflexivity.
Defined.

End ActorFacts.

(** ** Switch reply protocol *)

Module RfswitchFacts.
Import Rfswitch Samples.


Lemma await_discards (n : nat) (port : string) (m : message)
    (rest : list arrival) :
  unexpected port m ->
  await (S n) port (Response m :: rest) = await n port rest.
Proof.
  intros Hm. cbn [await]. destruct m as [r | v]; [|reflexivity].
  destruct Hm as [Herr Hport].
  destruct (String.eqb_spec (Report_ r) "error") as [E | _]; [contradiction|].
  destruct (String.eqb_spec (Report_ r) "port") as [Ep | _]; [|reflexivity].
  destruct (String.eqb_spec (Is r) port) as [Ei | _]; [|reflexivity].
  exfalso. apply Hport. split; assumption.
Qed.

Lemma await_discards_all (port : string) (ms : list message) :
  forall (n : nat) (rest : list arrival),
    Forall (unexpected port) ms ->
    await (List.length ms + n) port (map Response ms ++ rest)
    = await n port rest.
Proof.
  induction ms as [|m ms IH]; intros n rest Hall; [reflexivity|].
  inversion Hall as [|m' ms' Hm Hms]; subst.
  cbn [List.length map app Nat.add].
  rewrite await_discards by assumption. apply IH; assumption.
Qed.

(** After [k] unexpected responses the call is where the loop is with
    [k] iterations less. *)
Lemma SetPort_after_discards (port : string) (ms : list message) (k : nat)
    (rest : list arrival) :
  Forall (unexpected port) ms ->
  (List.length ms + k = 5)%nat ->
  fst (SetPort port true (map Response ms ++ rest)) = await k port rest.
Proof.
  intros Hall Hlen. unfold SetPort. cbn [fst]. rewrite <- Hlen.
  apply await_discards_all. exact Hall.
Qed.

(** C7. In the receive loop a report that is neither an error report nor
    the report of the requested port is dropped and the loop goes on with one
    iteration less. So after any run of fewer than five such reports the call
    is still undecided and the next arrival decides it: the report of the
    requested port makes [SetPort] succeed, an error report makes it fail
    with the text of the report, and the timer, or silence, makes it fail
    with "timeout receiving response"; the dropped reports are never taken
    for a success. In particular [SetPort("dut")], answered by a report of
    port "open" and then a report of port "dut", ignores the first and
    succeeds on the second, and answered by the report of port "open" alone
    it does not succeed. *)
Theorem SetPort_ignores_mismatch :
  (forall (n : nat) (port : string) (r : Report) (rest : list arrival),
      Report_ r <> "error"%string ->
      ~ (Report_ r = "port"%string /\ Is r = port) ->
      await (S n) port (Response (IsReport r) :: rest) = await n port rest)
  /\ (forall (port : string) (rs : list Report) (rest : list arrival),
        (List.length rs < 5)%nat ->
        Forall (fun r => Report_ r <> "error"%string
                         /\ ~ (Report_ r = "port"%string /\ Is r = port)) rs ->
        fst (SetPort port true
               (map Response (map IsReport rs)
                ++ Response (IsReport {| Report_ := "port"; Is := port |})
                   :: rest))
        = None
        /\ (forall text : string,
              fst (SetPort port true
                     (map Response (map IsReport rs)
                      ++ Response
                           (IsReport {| Report_ := "error"; Is := text |})
                         :: rest))
              = errors_New (String.append "Error" text))
        /\ fst (SetPort port true
                  (map Response (map IsReport rs) ++ Expired :: rest))
           = errors_New "timeout receiving response"
        /\ fst (SetPort port true (map Response (map IsReport rs)))
           = errors_New "timeout receiving response")
  /\ fst (SetPort "dut" true
            [Response (IsReport {| Report_ := "port"; Is := "open" |});
             Response (IsReport {| Report_ := "port"; Is := "dut" |})])
     = None
  /\ fst (SetPort "dut" true
            [Response (IsReport {| Report_ := "port"; Is := "open" |})])
     = errors_New "timeout receiving response".
Proof.
  split; [|split; [|split; reflexivity]].
  - intros n port r rest Herr Hport. apply await_discards. split; assumption.
  - intros port rs rest Hlen Hall.
    assert (Hms : Forall (unexpected port) (map IsReport rs))
      by (apply Forall_map; exact Hall).
    assert (Hk : (List.length (map IsReport rs)
                  + S (4 - List.length rs) = 5)%nat)
      by (rewrite length_map; lia).
    repeat split.
    + rewrite (SetPort_after_discards port _ _ _ Hms Hk).
      cbn [await Report_ Is]. cbn [String.eqb Ascii.eqb Bool.eqb andb].
      rewrite String.eqb_refl. reflexivity.
    + intros text. rewrite (SetPort_after_discards port _ _ _ Hms Hk).
      reflexivity.
    + rewrite (SetPort_after_discards port _ _ _ Hms Hk). reflexivity.
    + rewrite <- (app_nil_r (map Response (map IsReport rs))).
      rewrite (SetPort_after_discards port _ _ _ Hms Hk). reflexivity.
Qed.

Lemma SetPort_ignores_mismatch_witness :
  fst (SetPort "dut" true
         (map Response
            (map IsReport
               [{| Report_ := "port"; Is := "open" |};
                {| Report_ := "state"; Is := "dut" |}])
          ++ Response (IsReport {| Report_ := "port"; Is := "dut" |})
             :: [Expired]))
  = None
  /\ fst (SetPort "dut" true
            (map Response
               (map IsReport
                  [{| Report_ := "port"; Is := "open" |};
                   {| Report_ := "state"; Is := "dut" |}])
             ++ Expired
                :: [Response (IsReport {| Report_ := "port"; Is := "dut" |})]))
     = errors_New "timeout receiving response".
Proof.
  assert (Hlen : (List.length
                    [{| Report_ := "port"; Is := "open" |};
                     {| Report_ := "state"; Is := "dut" |}] < 5)%nat)
    by (cbn; lia).
  assert (Hall : Forall
                   (fun r => Report_ r <> "error"%string
                             /\ ~ (Report_ r = "port"%string
                                   /\ Is r = "dut"%string))
                   [{| Report_ := "port"; Is := "open" |};
                    {| Report_ := "state"; Is := "dut" |}]).
  { repeat constructor; try discriminate; intros [H1 H2]; discriminate. }
  split.
  - exact (proj1 (proj1 (proj2 SetPort_ignores_mismatch) "dut"%string
                    _ [Expired] Hlen Hall)).
  - exact (proj1 (proj2 (proj2
             (proj1 (proj2 SetPort_ignores_mismatch) "dut"%string _
                [Response (IsReport {| Report_ := "port"; Is := "dut" |})]
                Hlen Hall)))).
Defined.

(** C8. When the request was sent and the next five responses are all
    unexpected, [SetPort] gives up with the error "Too many Unexpected
    responses" (the text of the claim up to letter case), whatever arrives
    afterwards. *)
Theorem SetPort_too_many (port : string) (ms : list message)
    (rest : list arrival) :
  List.length ms = 5%nat ->
  Forall (unexpected port) ms ->
  fst (SetPort port true (map Response ms ++ rest))
  = errors_New "Too many Unexpected responses"
  /\ lower "Too many Unexpected responses" = "too many unexpected responses"%string.
Proof.
  intros Hlen Hall. split; [|reflexivity].
  unfold SetPort. cbn [fst].
  replace 5%nat with (List.length ms + 0)%nat by lia.
  rewrite await_discards_all by assumption. reflexivity.
Qed.

Lemma SetPort_too_many_witness :
  fst (SetPort "dut" true
         (map Response
            [IsReport {| Report_ := "port"; Is := "open" |};
             NotReport "blank line";
             IsReport {| Report_ := "port"; Is := "short" |};
             IsReport {| Report_ := "state"; Is := "dut" |};
             IsReport {| Report_ := "port"; Is := "load" |}]
          ++ [Response (IsReport {| Report_ := "port"; Is := "dut" |})]))
  = errors_New "Too many Unexpected responses"
  /\ lower "Too many Unexpected responses" = "too many unexpected responses"%string.
Proof.
  apply (SetPort_too_many "dut"); [reflexivity|].
  repeat constructor; try discriminate;
    intros [H1 H2]; discriminate.
Defined.


Section PipeFacts.

Variable V : Type.
Variable json_Marshal : V -> list Byte.byte + string.

(** C4 (as amended). When [json.Marshal] fails on a value taken from the
    [in] channel, the pipe logs a warning and, having no [continue], still
    writes a text message to the [out] channel, with the nil payload; then it
    goes on with the next value. The pipe returns nothing to anybody. *)
Theorem PipeInterfaceToWs_marshal_failure (s : V) (err : string)
    (rest : list (pipe_event V)) (t : pipe_trace) :
  json_Marshal s = inr err ->
  PipeInterfaceToWs V json_Marshal (Incoming V s :: rest) t
  = PipeInterfaceToWs V json_Marshal rest
      {| forwarded := forwarded t ++ [{| Data := []; Type_ := TextMessage |}];
         logged := logged t ++ ["Could not turn interface{} into JSON"%string]
      |}.
Proof.
  intros Hfail. cbn [PipeInterfaceToWs]. unfold pipe_step.
  rewrite Hfail. reflexivity.
Qed.

End PipeFacts.

Lemma PipeInterfaceToWs_marshal_failure_witness :
  PipeInterfaceToWs (option Command) sample_Marshal
    [Incoming _ None; CtxDone _] no_trace
  = PipeInterfaceToWs (option Command) sample_Marshal [CtxDone _]
      {| forwarded := [{| Data := []; Type_ := TextMessage |}];
         logged := ["Could not turn interface{} into JSON"%string] |}.
Proof.
  apply (PipeInterfaceToWs_marshal_failure (option Command) sample_Marshal
           None "json: unsupported type" [CtxDone _] no_trace).
  reflexivity.
Defined.

(** C4, as stated, fails: a value that cannot be serialized is not dropped,
    one message goes out for it. *)
Lemma PipeInterfaceToWs_drop_counterexample :
  forwarded (PipeInterfaceToWs (option Command) sample_Marshal
               [Incoming _ None] no_trace)
  = [{| Data := []; Type_ := 1 |}]
  /\ forwarded (PipeInterfaceToWs (option Command) sample_Marshal
                  [Incoming _ None] no_trace) <> [].
Proof. split; [reflexivity | discriminate]. Qed.

End RfswitchFacts.

(** ** Further properties: selection mask and status decoder *)

Module CodecFacts.
Import Pocket.

(** X1. [encodeParams] is the bit mask of the header: bit 0 is S21, bit 1
    is S11, bit 2 is S12, bit 3 is S22, and nothing above; so two selections
    with the same code are the same selection. *)
Theorem encodeParams_bits (p : SParamSelect) :
  0 <= encodeParams p < 16
  /\ Z.testbit (encodeParams p) 0 = SelS21 p
  /\ Z.testbit (encodeParams p) 1 = SelS11 p
  /\ Z.testbit (encodeParams p) 2 = SelS12 p
  /\ Z.testbit (encodeParams p) 3 = SelS22 p
  /\ (forall q : SParamSelect, encodeParams q = encodeParams p -> q = p).
Proof.
  destruct p as [[] [] [] []]; cbn; (repeat split; try lia);
    intros [[] [] [] []]; cbn; intros H; try discriminate H; reflexivity.
Qed.

(** X2. [decode] reports success for the code 0 only: a nonzero status is
    never turned into [nil], whatever the table. *)
Theorem decode_nil_iff_zero (Results : list string) (code : Z) :
  decode Results code = Returns None <-> code = 0.
Proof.
  split; [|intros ->; reflexivity].
  unfold decode. destruct (Z.eqb_spec code 0) as [E | _]; [intros _; exact E|].
  destruct (code =? 255).
  - destruct (Results_index Results (Z.of_nat (List.length Results) - 1));
      discriminate.
  - destruct (Results_index Results code); discriminate.
Qed.

Lemma Results_index_In (Results : list string) (i : Z) (msg : string) :
  Results_index Results i = Returns msg ->
  0 <= i < Z.of_nat (List.length Results)
  /\ nth_error Results (Z.to_nat i) = Some msg.
Proof.
  unfold Results_index. destruct (Z.ltb_spec i 0) as [|Hi]; [discriminate|].
  destruct (nth_error Results (Z.to_nat i)) as [m|] eqn:E; [|discriminate].
  intros H. injection H as <-. split; [|reflexivity].
  assert (Z.to_nat i < List.length Results)%nat
    by (apply nth_error_Some; congruence).
  lia.
Qed.

(** X3. Every error [decode] returns carries a message of the table: the
    entry at the index of the code, or the last entry for the code 255. No
    other text is made up. *)
Theorem decode_message_from_table (Results : list string) (code : Z)
    (msg : string) :
  decode Results code = Returns (Some msg) ->
  code <> 0
  /\ nth_error Results
       (Z.to_nat (if code =? 255 then Z.of_nat (List.length Results) - 1
                  else code)) = Some msg
  /\ In msg Results.
Proof.
  unfold decode. destruct (Z.eqb_spec code 0) as [|Hnz]; [discriminate|].
  intros H. split; [assumption|].
  assert (Hidx : Results_index Results
            (if code =? 255 then Z.of_nat (List.length Results) - 1 else code)
          = Returns msg).
  { destruct (code =? 255).
    - destruct (Results_index Results (Z.of_nat (List.length Results) - 1));
        [|discriminate]. injection H as <-. reflexivity.
    - destruct (Results_index Results code); [|discriminate].
      injection H as <-. reflexivity. }
  apply Results_index_In in Hidx. destruct Hidx as [_ Hnth].
  split; [exact Hnth | eapply nth_error_In; exact Hnth].
Qed.

Lemma decode_message_from_table_witness :
  2 <> 0
  /\ nth_error Samples.table (Z.to_nat (if 2 =? 255 then 4 - 1 else 2))
     = Some "Bad handle"%string
  /\ In "Bad handle"%string Samples.table.
Proof.
  apply (decode_message_from_table Samples.table 2 "Bad handle").
  reflexivity.
Defined.

End CodecFacts.

(** ** Further properties: the linear generator on its grid *)

Module GridFacts.
Import Float64 Float64Facts Sweep SweepFacts.

(** Where [size - 1] divides [i * (end_ - start)] the float64 formula of the
    linear generator makes no rounding error at counter [i]. *)
Lemma LinPoint_grid (start end_ size i : Z) :
  0 <= start < end_ -> end_ < 2 ^ 53 -> 2 <= size < 2 ^ 53 ->
  (size - 1) * (end_ - start) < 2 ^ 53 ->
  0 <= i < size ->
  (size - 1 | i * (end_ - start)) ->
  LinPoint start end_ size i = start + i * (end_ - start) / (size - 1).
Proof.
  intros Hse Hend Hsize Hprod Hi [q Hq].
  assert (Hquot : i * (end_ - start) / (size - 1) = q).
  { rewrite Hq. apply Z.div_mul. lia. }
  rewrite Hquot.
  assert (Hq0 : 0 <= q) by nia.
  assert (Hqd : q <= end_ - start) by nia.
  unfold LinPoint. rewrite denominator_exact by lia.
  rewrite (of_Z_exact end_) by lia.
  assert (Hdiff : sub (ifloat end_) (of_Z start) = ifloat (end_ - start)).
  { destruct (Z.eq_dec start 0) as [-> | Hnz].
    - rewrite Z.sub_0_r. reflexivity.
    - rewrite (of_Z_exact start) by lia. apply sub_exact; lia. }
  rewrite Hdiff.
  assert (Hsum : forall x, 0 < x -> start + x < 2 ^ 53 ->
             to_uint64 (add (of_Z start) (ifloat x)) = start + x).
  { intros x Hx Hsx. destruct (Z.eq_dec start 0) as [-> | Hnz].
    - change (add (of_Z 0) (ifloat x)) with (ifloat x).
      rewrite to_uint64_exact by lia. lia.
    - rewrite (of_Z_exact start), add_exact by lia.
      apply to_uint64_exact; lia. }
  destruct (Z.eq_dec i 0) as [-> | Hinz].
  - assert (q = 0) by nia. subst q. rewrite Z.add_0_r.
    change (of_Z 0) with (S754_zero false).
    change (mul (S754_zero false) (ifloat (end_ - start)))
      with (S754_zero false).
    change (div (S754_zero false) (ifloat (size - 1)))
      with (S754_zero false).
    destruct (Z.eq_dec start 0) as [-> | Hnz]; [reflexivity|].
    rewrite (of_Z_exact start) by lia.
    change (add (ifloat start) (S754_zero false)) with (ifloat start).
    apply to_uint64_exact; lia.
  - assert (Hiq : i * (end_ - start) < 2 ^ 53) by nia.
    assert (Hqpos : 0 < q) by nia.
    rewrite (of_Z_exact i) by lia.
    rewrite mul_exact by lia.
    rewrite Hq, (Z.mul_comm q (size - 1)).
    rewrite div_exact by lia.
    apply Hsum; lia.
Qed.

(** X4. The linear generator is exact on its grid: when every intermediate
    integer fits in 53 bits and [size - 1] divides [i * (end - start)], the
    point at index [i] is [start + i * (end - start) / (size - 1)]; so the
    first point is always [start]. *)
Theorem LinFrequency_grid_point (start end_ size i : Z) :
  0 <= start < end_ -> end_ < 2 ^ 53 -> 2 <= size < 2 ^ 53 ->
  (size - 1) * (end_ - start) < 2 ^ 53 ->
  0 <= i < size ->
  (size - 1 | i * (end_ - start)) ->
  nth_error (LinFrequency start end_ size) (Z.to_nat i)
  = Some (start + i * (end_ - start) / (size - 1))
  /\ nth_error (LinFrequency start end_ size) 0 = Some start.
Proof.
  intros Hse Hend Hsize Hprod Hi Hdiv. unfold LinFrequency. split.
  - rewrite nth_error_map, indices_nth by assumption. cbn [option_map].
    f_equal. apply LinPoint_grid; assumption.
  - change 0%nat with (Z.to_nat 0).
    rewrite nth_error_map, indices_nth by lia. cbn [option_map].
    f_equal. rewrite LinPoint_grid; try assumption; try lia.
    + rewrite Z.mul_0_l, Z.div_0_l by lia. lia.
    + exists 0. lia.
Qed.

Lemma LinFrequency_grid_point_witness :
  nth_error (LinFrequency 1000 2000 4) (Z.to_nat 3)
  = Some (1000 + 3 * (2000 - 1000) / (4 - 1))
  /\ nth_error (LinFrequency 1000 2000 4) 0 = Some 1000.
Proof.
  apply (LinFrequency_grid_point 1000 2000 4 3); try lia.
  exists 1000. lia.
Defined.

(** X5. When [size - 1] divides the span [end - start], the linear sweep
    is the arithmetic progression from [start] in steps of
    [(end - start) / (size - 1)]. *)
Theorem LinFrequency_progression (start end_ size : Z) :
  0 <= start < end_ -> end_ < 2 ^ 53 -> 2 <= size < 2 ^ 53 ->
  (size - 1) * (end_ - start) < 2 ^ 53 ->
  (size - 1 | end_ - start) ->
  LinFrequency start end_ size
  = map (fun i => start + i * ((end_ - start) / (size - 1))) (indices size).
Proof.
  intros Hse Hend Hsize Hprod Hdiv. unfold LinFrequency.
  apply map_ext_in. intros i Hin.
  assert (Hi : 0 <= i < size).
  { unfold indices in Hin. apply in_map_iff in Hin.
    destruct Hin as [k [<- Hk]]. apply in_seq in Hk. lia. }
  rewrite LinPoint_grid; try assumption.
  - f_equal. apply Z.divide_div_mul_exact; [lia | assumption].
  - apply Z.divide_mul_r. assumption.
Qed.

Lemma LinFrequency_progression_witness :
  LinFrequency 1000000 6000000000 201
  = map (fun i => 1000000 + i * ((6000000000 - 1000000) / (201 - 1)))
      (indices 201).
Proof.
  apply (LinFrequency_progression 1000000 6000000000 201); try lia.
  exists 29995000. lia.
Defined.

End GridFacts.

(** ** Further properties: the dispatcher *)

Module DispatchFacts.
Import Pocket Notions SweepFacts ActorFacts.

Lemma labels_length Pow (r : RangeQuery) :
  List.length (labels Pow r) = Z.to_nat (Size r).
Proof.
  unfold labels. destruct (LogDistribution r);
    [apply LogFrequency_length | apply LinFrequency_length].
Qed.

Lemma array_index_within (a : list Complex) (i : Z) :
  0 <= i < capacity ->
  array_index a i = Returns (nth (Z.to_nat i) a zero_sparam).
Proof.
  intros Hi. unfold array_index.
  destruct (Z.leb_spec 0 i) as [_|]; [|lia].
  destruct (Z.ltb_spec i capacity) as [_|]; [|lia].
  reflexivity.
Qed.

Lemma slice_index_within (ff : list Z) (i : Z) :
  0 <= i -> (Z.to_nat i < List.length ff)%nat ->
  slice_index ff i = Returns (nth (Z.to_nat i) ff 0).
Proof.
  intros Hi Hlen. unfold slice_index.
  destruct (Z.ltb_spec i 0) as [|_]; [lia|].
  destruct (nth_error ff (Z.to_nat i)) as [f|] eqn:E.
  - rewrite (nth_error_nth _ _ 0 E). reflexivity.
  - apply nth_error_None in E. lia.
Qed.

(** Within the capacity of the buffers the copying loop is a [map]. *)
Lemma copy_points_within (r : reply) (ff : list Z) (counters : list Z) :
  forall ss : list SParam,
    (forall i, In i counters ->
       0 <= i < capacity /\ (Z.to_nat i < List.length ff)%nat) ->
    copy_points r ff ss counters = Returns (ss ++ map (point r ff) counters).
Proof.
  induction counters as [|c rest IH]; intros ss Hall.
  - cbn. rewrite app_nil_r. reflexivity.
  - destruct (Hall c (or_introl eq_refl)) as [Hc Hlen].
    cbn [copy_points map].
    rewrite !array_index_within, slice_index_within by lia.
    rewrite IH by (intros i Hi; apply Hall; right; exact Hi).
    rewrite <- app_assoc. reflexivity.
Qed.

Lemma indices_within (size i : Z) :
  In i (Sweep.indices size) -> 0 <= i < size.
Proof.
  unfold Sweep.indices. intros Hin. apply in_map_iff in Hin.
  destruct Hin as [k [<- Hk]]. apply in_seq in Hk. lia.
Qed.

Section Dispatcher.

Variable Results : list string.
Variable Pow : Float64.float64 -> Float64.float64 -> Float64.float64.
Variable D : Type.
Variable native : call -> D -> reply * D.

(** What a served command comes to: one library call on the handle of the
    actor, then the decoding of its status decides between the answer, an
    error result and a panic. *)
Lemma HandleCommand_served (cmd : command) (c : call) (w : world D) :
  library_call (handle (vna w)) cmd = Some c -> fits cmd ->
  HandleCommand Results Pow D native cmd w
  = (match decode Results (status (reply_to native c w)) with
     | Returns None => Returns (answer Pow cmd (reply_to native c w))
     | Returns (Some msg) => Returns (error_result msg)
     | Panics p => Panics p
     end,
     after_call native c w).
Proof.
  intros Hcall Hfits. unfold reply_to, after_call.
  destruct cmd as [r | r | q | v]; cbn [library_call] in Hcall;
    try discriminate; injection Hcall as <-.
  - unfold HandleCommand, GetReasonableFrequencyRange,
      getReasonableFrequencyRange, bind, get_handle, C_call, lift, ret.
    destruct (native _ (device w)) as [rep d]. cbn [fst snd].
    destruct (decode Results (status rep)) as [[msg|]|p]; reflexivity.
  - cbn [fits] in Hfits.
    unfold HandleCommand, VNA_RangeQuery, rangeQuery, bind, get_handle,
      C_call, lift, ret.
    fold (sweep_call (handle (vna w)) r).
    destruct (native _ (device w)) as [rep d]. cbn [fst snd].
    assert (Hff : (if (if LogDistribution r then 2 else 1) =? 1
                   then Sweep.LinFrequency (Start (RqRange r))
                          (End (RqRange r)) (Size r)
                   else Sweep.LogFrequency Pow (Start (RqRange r))
                          (End (RqRange r)) (Size r))
                  = labels Pow r).
    { unfold labels. destruct (LogDistribution r); reflexivity. }
    rewrite Hff.
    rewrite copy_points_within.
    + cbn [app answer].
      destruct (decode Results (status rep)) as [[msg|]|p]; reflexivity.
    + intros i Hi. apply indices_within in Hi. rewrite labels_length.
      unfold capacity in *. lia.
  - unfold HandleCommand, VNA_SingleQuery, singleQuery, bind, get_handle,
      C_call, lift, ret.
    destruct (native _ (device w)) as [rep d]. cbn [fst snd].
    destruct (decode Results (status rep)) as [[msg|]|p]; reflexivity.
Qed.

(** Whatever the command and the outcome, the world afterwards is the
    world before with at most the one library call added. *)
Lemma HandleCommand_world (cmd : command) (w : world D) :
  snd (HandleCommand Results Pow D native cmd w)
  = match library_call (handle (vna w)) cmd with
    | Some c => after_call native c w
    | None => w
    end.
Proof.
  unfold after_call.
  destruct cmd as [r | r | q | v]; cbn [library_call].
  - unfold HandleCommand, GetReasonableFrequencyRange,
      getReasonableFrequencyRange, bind, get_handle, C_call, lift, ret.
    destruct (native _ (device w)) as [rep d]. cbn [fst snd].
    destruct (decode Results (status rep)) as [[msg|]|p]; reflexivity.
  - unfold HandleCommand, VNA_RangeQuery, rangeQuery, bind, get_handle,
      C_call, lift, ret.
    fold (sweep_call (handle (vna w)) r).
    destruct (native _ (device w)) as [rep d]. cbn [fst snd].
    destruct (copy_points rep _ [] (Sweep.indices (Size r))) as [ss|p];
      [|reflexivity].
    destruct (decode Results (status rep)) as [[msg|]|p]; reflexivity.
  - unfold HandleCommand, VNA_SingleQuery, singleQuery, bind, get_handle,
      C_call, lift, ret.
    destruct (native _ (device w)) as [rep d]. cbn [fst snd].
    destruct (decode Results (status rep)) as [[msg|]|p]; reflexivity.
  - reflexivity.
Qed.

Lemma decode_status_zero (rep : reply) :
  status rep = 0 -> decode Results (status rep) = Returns None.
Proof. intros ->. reflexivity. Qed.

Lemma nth_of_seq (ff : list Z) :
  map (fun k => nth k ff 0) (seq 0 (List.length ff)) = ff.
Proof.
  apply (nth_ext _ _ 0 0).
  - rewrite length_map, length_seq. reflexivity.
  - intros n Hn. rewrite length_map, length_seq in Hn.
    rewrite (nth_indep _ 0 (nth 0 ff 0))
      by (rewrite length_map, length_seq; exact Hn).
    rewrite (map_nth (fun k => nth k ff 0)), seq_nth by exact Hn.
    reflexivity.
Qed.

(** X6. A sweep request for at most 512 points that the library serves
    with status 0 is answered by the request with its result filled in: one
    point per counter, made of the four buffers at that counter and labelled
    with the frequency the host computes itself, linear or logarithmic as the
    request says; the library gets one call, on the handle of the actor. *)
Theorem sweep_answer (r : RangeQuery) (w : world D) :
  Size r <= capacity ->
  status (reply_to native (sweep_call (handle (vna w)) r) w) = 0 ->
  exists ss : list SParam,
    HandleCommand Results Pow D native (CmdRangeQuery r) w
    = (Returns
         (ResRangeQuery
            {| RqRange := RqRange r; Size := Size r;
               LogDistribution := LogDistribution r; RqAvg := RqAvg r;
               RqSelect := RqSelect r; RqResult := ss |}),
       after_call native (sweep_call (handle (vna w)) r) w)
    /\ ss = map (point (reply_to native (sweep_call (handle (vna w)) r) w)
                   (labels Pow r))
              (Sweep.indices (Size r))
    /\ map Freq ss = labels Pow r
    /\ List.length ss = Z.to_nat (Size r).
Proof.
  intros Hsize Hstatus. eexists. split; [|split; [reflexivity | split]].
  - rewrite (HandleCommand_served _ (sweep_call (handle (vna w)) r))
      by (reflexivity || exact Hsize).
    rewrite decode_status_zero by exact Hstatus. reflexivity.
  - unfold Sweep.indices. rewrite !map_map. cbn [Freq point].
    transitivity (map (fun k => nth k (labels Pow r) 0)
                    (seq 0 (List.length (labels Pow r))));
      [|apply nth_of_seq].
    rewrite labels_length. apply map_ext. intros k.
    rewrite Nat2Z.id. reflexivity.
  - rewrite length_map, indices_length. reflexivity.
Qed.

(** X7. When the library answers a command with a status that [decode]
    turns into an error, the dispatcher returns the error result with that
    message and no command attached; the request and whatever the library
    wrote are dropped. This holds for the three commands alike. *)
Theorem failure_becomes_error_result (cmd : command) (c : call)
    (w : world D) (msg : string) :
  library_call (handle (vna w)) cmd = Some c -> fits cmd ->
  decode Results (status (reply_to native c w)) = Returns (Some msg) ->
  HandleCommand Results Pow D native cmd w
  = (Returns (ResCustom {| Message := msg; Pocket.Command := None |}),
     after_call native c w).
Proof.
  intros Hcall Hfits Hdecode.
  rewrite (HandleCommand_served cmd c) by assumption.
  rewrite Hdecode. reflexivity.
Qed.

(** X8. A status outside the table crashes the dispatcher: when the
    library answers a command, even a well-formed one, with a code other than
    0 and 255 that is not an index of [Results], [HandleCommand] panics after
    the call and produces no result. *)
Theorem unknown_status_panics (cmd : command) (c : call) (w : world D) :
  library_call (handle (vna w)) cmd = Some c -> fits cmd ->
  status (reply_to native c w) <> 0 ->
  status (reply_to native c w) <> 255 ->
  status (reply_to native c w) < 0
  \/ Z.of_nat (List.length Results) <= status (reply_to native c w) ->
  HandleCommand Results Pow D native cmd w
  = (Panics "index out of range", after_call native c w).
Proof.
  intros Hcall Hfits H0 H255 Hout.
  rewrite (HandleCommand_served cmd c) by assumption.
  unfold decode.
  destruct (Z.eqb_spec (status (reply_to native c w)) 0); [contradiction|].
  destruct (Z.eqb_spec (status (reply_to native c w)) 255); [contradiction|].
  rewrite DecoderFacts.Results_index_out_of_range by assumption.
  reflexivity.
Qed.

(** X9. A negative [Size] is not rejected either: the conversion to
    [uint32] hands the library the count [Size + 2^32], far beyond the 512
    entries of the buffers, while the host copies no point; with status 0 the
    answer is the request with an empty result. *)
Theorem negative_size_sweep (r : RangeQuery) (w : world D) :
  capacity - 2 ^ 32 < Size r < 0 ->
  status (reply_to native (sweep_call (handle (vna w)) r) w) = 0 ->
  sweep_call (handle (vna w)) r
  = pocketvna_range_query (handle (vna w)) (Start (RqRange r))
      (End (RqRange r)) (Size r + 2 ^ 32)
      (if LogDistribution r then 2 else 1) (RqAvg r)
      (encodeParams (RqSelect r))
  /\ capacity < Size r + 2 ^ 32
  /\ HandleCommand Results Pow D native (CmdRangeQuery r) w
     = (Returns
          (ResRangeQuery
             {| RqRange := RqRange r; Size := Size r;
                LogDistribution := LogDistribution r; RqAvg := RqAvg r;
                RqSelect := RqSelect r; RqResult := [] |}),
        after_call native (sweep_call (handle (vna w)) r) w).
Proof.
  intros Hsize Hstatus. unfold capacity in Hsize. split; [|split].
  - unfold sweep_call. f_equal.
    symmetry. apply (Z.mod_unique _ _ (-1)); lia.
  - unfold capacity. lia.
  - rewrite (HandleCommand_served _ (sweep_call (handle (vna w)) r))
      by (reflexivity || (cbn [fits]; unfold capacity; lia)).
    rewrite decode_status_zero by exact Hstatus.
    cbn [answer]. unfold Sweep.indices.
    replace (Z.to_nat (Size r)) with 0%nat by lia. reflexivity.
Qed.

(** X10. The two queries without a loop, served with status 0: the range
    query answers with the bounds the library wrote, the single query with the
    four values the library wrote, labelled with the frequency of the request,
    and passes the selection to the library as its bit mask. *)
Theorem plain_queries_answer (r : ReasonableFrequencyRange)
    (q : SingleQuery) (w : world D) :
  (status (reply_to native
             (pocketvna_get_reasonable_frequency_range (handle (vna w))) w)
   = 0 ->
   HandleCommand Results Pow D native (CmdReasonableFrequencyRange r) w
   = (Returns
        (ResReasonableFrequencyRange
           {| RfrResult :=
                {| Start := from_out (reply_to native
                     (pocketvna_get_reasonable_frequency_range
                        (handle (vna w))) w);
                   End := to_out (reply_to native
                     (pocketvna_get_reasonable_frequency_range
                        (handle (vna w))) w) |} |}),
      after_call native
        (pocketvna_get_reasonable_frequency_range (handle (vna w))) w))
  /\ (forall c : call,
        c = pocketvna_single_query (handle (vna w)) (SqFreq q) (SqAvg q)
              (encodeParams (SqSelect q)) ->
        status (reply_to native c w) = 0 ->
        exists s : SParam,
          HandleCommand Results Pow D native (CmdSingleQuery q) w
          = (Returns
               (ResSingleQuery
                  {| SqFreq := SqFreq q; SqAvg := SqAvg q;
                     SqSelect := SqSelect q; SqResult := s |}),
             after_call native c w)
          /\ Freq s = SqFreq q
          /\ S11 s = hd zero_sparam (s11_out (reply_to native c w))
          /\ S21 s = hd zero_sparam (s21_out (reply_to native c w))
          /\ S12 s = hd zero_sparam (s12_out (reply_to native c w))
          /\ S22 s = hd zero_sparam (s22_out (reply_to native c w))).
Proof.
  split.
  - intros Hstatus.
    rewrite (HandleCommand_served _
               (pocketvna_get_reasonable_frequency_range (handle (vna w))))
      by (reflexivity || exact I).
    rewrite decode_status_zero by exact Hstatus. reflexivity.
  - intros c -> Hstatus. eexists. split.
    + rewrite (HandleCommand_served _
                 (pocketvna_single_query (handle (vna w)) (SqFreq q)
                    (SqAvg q) (encodeParams (SqSelect q))))
        by (reflexivity || exact I).
      rewrite decode_status_zero by exact Hstatus. reflexivity.
    + repeat split.
Qed.

End Dispatcher.

Import Samples Instances.

Lemma sweep_answer_witness :
  exists ss : list SParam,
    fst (HandleCommand table pow_sample unit attached
           (CmdRangeQuery (sweep_of 3)) connected)
    = Returns
        (ResRangeQuery
           {| RqRange := {| Start := 1000; End := 2000 |}; Size := 3;
              LogDistribution := false; RqAvg := 1; RqSelect := forward;
              RqResult := ss |})
    /\ map Freq ss = labels pow_sample (sweep_of 3)
    /\ List.length ss = 3%nat.
Proof.
  destruct (sweep_answer table pow_sample unit attached (sweep_of 3)
              connected) as [ss [H [_ [Hfreq Hlen]]]];
    [unfold capacity; cbn; lia | reflexivity |].
  exists ss. split; [rewrite H; reflexivity | split; assumption].
Defined.

Lemma failure_becomes_error_result_witness :
  HandleCommand table pow_sample unit absent (CmdSingleQuery single) connected
  = (Returns
       (ResCustom {| Message := "No device"; Pocket.Command := None |}),
     after_call absent (pocketvna_single_query 7 1500 1 3) connected).
Proof.
  apply (failure_becomes_error_result table pow_sample unit absent
           (CmdSingleQuery single) (pocketvna_single_query 7 1500 1 3)
           connected "No device");
    [reflexivity | exact I | reflexivity].
Defined.

Lemma unknown_status_panics_witness :
  HandleCommand table pow_sample unit confused (CmdRangeQuery (sweep_of 3))
    connected
  = (Panics "index out of range",
     after_call confused (sweep_call 7 (sweep_of 3)) connected).
Proof.
  apply (unknown_status_panics table pow_sample unit confused
           (CmdRangeQuery (sweep_of 3)) (sweep_call 7 (sweep_of 3)) connected);
    [reflexivity | unfold fits, capacity; cbn; lia | cbn; lia | cbn; lia
    | right; cbn; lia].
Defined.

Lemma negative_size_sweep_witness :
  sweep_call 7 (sweep_of (-1))
  = pocketvna_range_query 7 1000 2000 (-1 + 2 ^ 32) 1 1 (encodeParams forward)
  /\ capacity < -1 + 2 ^ 32
  /\ HandleCommand table pow_sample unit attached
       (CmdRangeQuery (sweep_of (-1))) connected
     = (Returns
          (ResRangeQuery
             {| RqRange := {| Start := 1000; End := 2000 |}; Size := -1;
                LogDistribution := false; RqAvg := 1; RqSelect := forward;
                RqResult := [] |}),
        after_call attached (sweep_call 7 (sweep_of (-1))) connected).
Proof.
  apply (negative_size_sweep table pow_sample unit attached (sweep_of (-1))
           connected);
    [unfold capacity; cbn; lia | reflexivity].
Defined.

Lemma plain_queries_answer_witness :
  HandleCommand table pow_sample unit attached
    (CmdReasonableFrequencyRange
       {| RfrResult := {| Start := 0; End := 0 |} |}) connected
  = (Returns
       (ResReasonableFrequencyRange
          {| RfrResult := {| Start := 500000; End := 4000000000 |} |}),
     after_call attached (pocketvna_get_reasonable_frequency_range 7)
       connected)
  /\ exists s : SParam,
       fst (HandleCommand table pow_sample unit attached
              (CmdSingleQuery single) connected)
       = Returns
           (ResSingleQuery
              {| SqFreq := 1500; SqAvg := 1; SqSelect := forward;
                 SqResult := s |})
       /\ Freq s = 1500.
Proof.
  destruct (plain_queries_answer table pow_sample unit attached
              {| RfrResult := {| Start := 0; End := 0 |} |} single connected)
    as [Hrange Hsingle].
  split; [apply Hrange; reflexivity|].
  destruct (Hsingle _ eq_refl eq_refl) as [s [H [Hfreq _]]].
  exists s. split; [rewrite H; reflexivity | exact Hfreq].
Defined.

End DispatchFacts.

(** ** Further properties: the run of the actor *)

Module RunFacts.
Import Pocket Notions DispatchFacts.

Lemma library_call_uses_handle (h : Z) (cmd : command) (c : call) :
  library_call h cmd = Some c -> uses_handle h c.
Proof.
  destruct cmd; cbn [library_call]; intros H; try discriminate;
    injection H as <-; reflexivity.
Qed.

Section Actor.

Variable Results : list string.
Variable Pow : Float64.float64 -> Float64.float64 -> Float64.float64.
Variable D : Type.
Variable native : call -> D -> reply * D.

(** What serving does to the world, whatever the outcome: the handle
    stays, and every library call added is made on it. *)
Lemma serve_world (events : list event) :
  forall w : world D,
    vna (snd (serve Results Pow D native events w)) = vna w
    /\ exists new : list call,
         calls (snd (serve Results Pow D native events w)) = calls w ++ new
         /\ Forall (uses_handle (handle (vna w))) new.
Proof.
  induction events as [|[cmd|] rest IH]; intros w.
  - split; [reflexivity|]. exists []. rewrite app_nil_r. split; constructor.
  - cbn [serve]. unfold bind, receive, send.
    match goal with
    | |- context [HandleCommand _ _ _ _ _ ?x] => set (w1 := x)
    end.
    pose proof (HandleCommand_world Results Pow D native cmd w1) as Hw.
    destruct (HandleCommand Results Pow D native cmd w1) as [[r | p] w2];
      cbn [snd] in Hw.
    + match goal with
      | |- context [serve _ _ _ _ _ ?x] => set (w3 := x)
      end.
      destruct (IH w3) as [Hvna [new [Hcalls Hall]]].
      assert (Hw3 : vna w3 = vna w
                /\ exists one, calls w3 = calls w ++ one
                   /\ Forall (uses_handle (handle (vna w))) one).
      { subst w3. cbn [vna calls]. rewrite Hw.
        destruct (library_call (handle (vna w1)) cmd) as [c|] eqn:Hc.
        - split; [reflexivity|]. exists [c]. split; [reflexivity|].
          constructor; [|constructor].
          apply (library_call_uses_handle _ cmd). exact Hc.
        - split; [reflexivity|]. exists []. rewrite app_nil_r.
          split; constructor. }
      destruct Hw3 as [Hv3 [one [Hc3 Hone]]].
      split; [congruence|].
      exists (one ++ new). rewrite Hcalls, Hc3, app_assoc.
      split; [reflexivity|]. apply Forall_app. split; [assumption|].
      rewrite Hv3 in Hall. exact Hall.
    + cbn [snd]. rewrite Hw.
      destruct (library_call (handle (vna w1)) cmd) as [c|] eqn:Hc.
      * split; [reflexivity|]. exists [c]. split; [reflexivity|].
        constructor; [|constructor].
        apply (library_call_uses_handle _ cmd). exact Hc.
      * split; [reflexivity|]. exists []. rewrite app_nil_r.
        split; constructor.
  - cbn [serve]. unfold Disconnect, releaseHandle, bind, get_handle, C_call,
      lift, ret, send.
    destruct (native (pocketvna_release_handle (handle (vna w))) (device w))
      as [rep d].
    destruct (decode Results (status rep)) as [[msg|]|p]; cbn [snd vna calls];
      (split; [reflexivity|]);
      exists [pocketvna_release_handle (handle (vna w))];
      (split; [reflexivity|]); constructor; try constructor; reflexivity.
Qed.

(** A successful [Connect] stores the handle the library wrote and makes
    the one call. *)
Lemma Connect_success (w w1 : world D) :
  Connect Results D native w = (Returns None, w1) ->
  w1 = {| vna := {| handle :=
                      handle_out
                        (reply_to native pocketvna_get_first_device_handle w)
                 |};
          device := snd (native pocketvna_get_first_device_handle (device w));
          calls := calls w ++ [pocketvna_get_first_device_handle];
          taken := taken w;
          sent := sent w |}.
Proof.
  unfold Connect, getFirstDeviceHandle, bind, C_call, lift, ret, set_handle,
    reply_to.
  destruct (native pocketvna_get_first_device_handle (device w)) as [rep d].
  cbn [fst snd].
  destruct (decode Results (status rep)) as [[m|]|p]; cbn; congruence.
Qed.

(** X11. One handle for the whole run. After a successful connect the
    actor holds the handle the library handed out and never changes it; the
    connect call is the only one of its kind, and every later library call,
    the release at cancellation included, is made on that handle. This holds
    for every sequence of commands and for every outcome, a panic included. *)
Theorem Run_uses_one_handle (events : list event) (w w1 : world D) :
  Connect Results D native w = (Returns None, w1) ->
  handle (vna (snd (Run Results Pow D native events w)))
  = handle_out (reply_to native pocketvna_get_first_device_handle w)
  /\ exists later : list call,
       calls (snd (Run Results Pow D native events w))
       = calls w ++ pocketvna_get_first_device_handle :: later
       /\ Forall (uses_handle
                    (handle_out
                       (reply_to native pocketvna_get_first_device_handle w)))
            later.
Proof.
  intros Hconnect. pose proof (Connect_success _ _ Hconnect) as Hw1.
  unfold Run, bind. rewrite Hconnect.
  destruct (serve_world events w1) as [Hvna [new [Hcalls Hall]]].
  rewrite Hvna, Hcalls. subst w1. cbn [vna handle calls] in *.
  split; [reflexivity|]. exists new.
  rewrite <- app_assoc. split; [reflexivity | exact Hall].
Qed.

(** The commands taken and the results written by a serving that does
    not panic. *)
Lemma serve_results (events : list event) :
  forall (w w' : world D) (e : ending),
    serve Results Pow D native events w = (Returns e, w') ->
    taken w' = taken w ++ accepted events
    /\ match e with
       | Waiting =>
           ~ In EvDone events
           /\ List.length (sent w')
              = (List.length (sent w) + List.length (accepted events))%nat
       | Returned =>
           In EvDone events
           /\ (List.length (sent w) + List.length (accepted events)
               <= List.length (sent w')
               <= List.length (sent w) + List.length (accepted events) + 1)%nat
       end.
Proof.
  induction events as [|[cmd|] rest IH]; intros w w' e Hserve.
  - cbn in Hserve. injection Hserve as <- <-. cbn [accepted].
    rewrite app_nil_r. split; [reflexivity|]. split; [intros []|cbn; lia].
  - cbn [serve] in Hserve. unfold bind, receive, send in Hserve.
    match type of Hserve with
    | context [HandleCommand _ _ _ _ _ ?x] => set (w1 := x) in Hserve
    end.
    pose proof (HandleCommand_world Results Pow D native cmd w1) as Hw.
    destruct (HandleCommand Results Pow D native cmd w1) as [[r | p] w2];
      cbn [snd] in Hw; [|discriminate].
    apply IH in Hserve. cbn [taken sent] in Hserve.
    assert (Htaken : taken w2 = taken w ++ [cmd])
      by (rewrite Hw; destruct (library_call _ cmd); reflexivity).
    assert (Hsent : sent w2 = sent w)
      by (rewrite Hw; destruct (library_call _ cmd); reflexivity).
    rewrite Htaken, Hsent, length_app in Hserve. cbn [List.length] in Hserve.
    destruct Hserve as [Ht He]. cbn [accepted List.length].
    split; [rewrite Ht, <- app_assoc; reflexivity|].
    destruct e.
    + destruct He as [Hin Hlen]. split; [right; exact Hin | lia].
    + destruct He as [Hin Hlen]. split; [|lia].
      intros [Heq | Hin']; [discriminate | contradiction].
  - cbn [serve] in Hserve.
    unfold Disconnect, releaseHandle, bind, get_handle, C_call, lift, ret,
      send in Hserve.
    destruct (native (pocketvna_release_handle (handle (vna w))) (device w))
      as [rep d].
    destruct (decode Results (status rep)) as [[msg|]|p];
      try discriminate; injection Hserve as <- <-;
      cbn [taken sent accepted List.length]; rewrite app_nil_r, ?length_app;
      cbn [List.length]; (split; [reflexivity|]);
      (split; [left; reflexivity | lia]).
Qed.

(** X12. One result per command. In a run that connects and does not
    panic, the commands taken are exactly those picked before the first
    cancellation, in order, and each is answered by one value on the result
    channel; a run that returned saw a cancellation and wrote at most one
    more value, the error of the release; a run that is still waiting saw
    none. *)
Theorem Run_answers_each_command (events : list event) (w w1 w' : world D)
    (e : ending) :
  Connect Results D native w = (Returns None, w1) ->
  Run Results Pow D native events w = (Returns e, w') ->
  taken w' = taken w ++ accepted events
  /\ match e with
     | Waiting =>
         ~ In EvDone events
         /\ List.length (sent w')
            = (List.length (sent w) + List.length (accepted events))%nat
     | Returned =>
         In EvDone events
         /\ (List.length (sent w) + List.length (accepted events)
             <= List.length (sent w')
             <= List.length (sent w) + List.length (accepted events) + 1)%nat
     end.
Proof.
  intros Hconnect Hrun. pose proof (Connect_success _ _ Hconnect) as Hw1.
  unfold Run, bind in Hrun. rewrite Hconnect in Hrun.
  apply serve_results in Hrun. subst w1. exact Hrun.
Qed.

Lemma serve_stops_at_done (pre rest : list event) :
  forall w : world D,
    serve Results Pow D native (pre ++ EvDone :: rest) w
    = serve Results Pow D native (pre ++ [EvDone]) w.
Proof.
  induction pre as [|[cmd|] pre IH]; intros w; [reflexivity | | reflexivity].
  cbn [app serve]. unfold bind.
  destruct (receive D cmd w) as [[u|p] w1]; [|reflexivity].
  destruct (HandleCommand Results Pow D native cmd w1) as [[r|p] w2];
    [|reflexivity].
  destruct (send D r w2) as [[u'|p] w3]; [|reflexivity].
  apply IH.
Qed.

(** X13. Cancellation is final. What is picked after the first
    cancellation has no effect on the run; and at the cancellation the actor
    makes one library call, the release of its handle. *)
Theorem Run_stops_at_cancellation (pre rest : list event) (w : world D) :
  Run Results Pow D native (pre ++ EvDone :: rest) w
  = Run Results Pow D native (pre ++ [EvDone]) w
  /\ calls (snd (serve Results Pow D native (EvDone :: rest) w))
     = calls w ++ [pocketvna_release_handle (handle (vna w))].
Proof.
  split.
  - unfold Run, bind.
    destruct (Connect Results D native w) as [[[msg|]|p] w1];
      [reflexivity | apply serve_stops_at_done | reflexivity].
  - cbn [serve]. unfold Disconnect, releaseHandle, bind, get_handle, C_call,
      lift, ret, send.
    destruct (native (pocketvna_release_handle (handle (vna w))) (device w))
      as [rep d].
    destruct (decode Results (status rep)) as [[msg|]|p]; reflexivity.
Qed.

End Actor.

Import Samples Instances.

Lemma Run_uses_one_handle_witness :
  handle (vna (snd (Run table pow_sample unit attached
                      [EvCommand (CmdSingleQuery single); EvDone]
                      (initial tt))))
  = 7
  /\ exists later : list call,
       calls (snd (Run table pow_sample unit attached
                     [EvCommand (CmdSingleQuery single); EvDone]
                     (initial tt)))
       = [] ++ pocketvna_get_first_device_handle :: later
       /\ Forall (uses_handle 7) later.
Proof.
  apply (Run_uses_one_handle table pow_sample unit attached
           [EvCommand (CmdSingleQuery single); EvDone] (initial tt)
           (snd (Connect table unit attached (initial tt)))).
  reflexivity.
Defined.

Lemma Run_answers_each_command_witness :
  taken (snd (Run table pow_sample unit attached
                [EvCommand (CmdSingleQuery single); EvDone;
                 EvCommand (CmdOther "late")] (initial tt)))
  = [] ++ [CmdSingleQuery single]
  /\ (In EvDone [EvCommand (CmdSingleQuery single); EvDone;
                 EvCommand (CmdOther "late")]
      /\ (0 + 1
          <= List.length
               (sent (snd (Run table pow_sample unit attached
                             [EvCommand (CmdSingleQuery single); EvDone;
                              EvCommand (CmdOther "late")] (initial tt))))
          <= 0 + 1 + 1)%nat).
Proof.
  apply (Run_answers_each_command table pow_sample unit attached
           [EvCommand (CmdSingleQuery single); EvDone;
            EvCommand (CmdOther "late")]
           (initial tt)
           (snd (Connect table unit attached (initial tt)))
           (snd (Run table pow_sample unit attached
                   [EvCommand (CmdSingleQuery single); EvDone;
                    EvCommand (CmdOther "late")] (initial tt)))
           Returned);
    reflexivity.
Defined.

End RunFacts.

(** ** Further properties: the reply protocol *)

Module ReplyFacts.
Import Rfswitch Notions RfswitchFacts.

Lemma await_after_unexpected (port : string) (ms : list message) (k : nat)
    (rest : list arrival) :
  Forall (unexpected port) ms ->
  (List.length ms + S k = 5)%nat ->
  fst (SetPort port true (map Response ms ++ rest)) = await (S k) port rest.
Proof.
  intros Hall Hlen. unfold SetPort. cbn [fst]. rewrite <- Hlen.
  apply await_discards_all. exact Hall.
Qed.

(** X14. The first response that is not unexpected decides, as long as it
    is among the first five: after fewer than five unexpected responses an
    error report makes [SetPort] fail with "Error" followed by the text of
    the report, and the report of the requested port makes it succeed,
    whatever arrives later. *)
Theorem SetPort_decided_by_report (port : string) (ms : list message)
    (r : Report) (rest : list arrival) :
  (List.length ms < 5)%nat ->
  Forall (unexpected port) ms ->
  (Report_ r = "error"%string ->
   fst (SetPort port true (map Response ms ++ Response (IsReport r) :: rest))
   = errors_New (String.append "Error" (Is r)))
  /\ (Report_ r = "port"%string -> Is r = port ->
      fst (SetPort port true
             (map Response ms ++ Response (IsReport r) :: rest))
      = None).
Proof.
  intros Hlen Hall.
  rewrite (await_after_unexpected port ms (4 - List.length ms)) by (assumption || lia).
  cbn [await]. split.
  - intros ->. reflexivity.
  - intros Hr <-. rewrite Hr. cbn [String.eqb Ascii.eqb Bool.eqb andb].
    rewrite String.eqb_refl. reflexivity.
Qed.

Lemma SetPort_decided_by_report_witness :
  fst (SetPort "dut" true
         (map Response
            [NotReport "blank"; IsReport {| Report_ := "port"; Is := "open" |}]
          ++ Response (IsReport {| Report_ := "error"; Is := " bad state" |})
             :: [Response (IsReport {| Report_ := "port"; Is := "dut" |})]))
  = errors_New "Error bad state".
Proof.
  apply (SetPort_decided_by_report "dut"
           [NotReport "blank"; IsReport {| Report_ := "port"; Is := "open" |}]
           {| Report_ := "error"; Is := " bad state" |}
           [Response (IsReport {| Report_ := "port"; Is := "dut" |})]).
  - cbn. lia.
  - repeat constructor; try discriminate. intros [_ H]. discriminate H.
  - reflexivity.
Defined.

(** X15. Each of the five receive attempts has its own timer: when, after
    fewer than five unexpected responses, the timer fires or nothing more
    arrives, [SetPort] fails with "timeout receiving response" and does not
    look at later responses. *)
Theorem SetPort_receive_timeout (port : string) (ms : list message)
    (rest : list arrival) :
  (List.length ms < 5)%nat ->
  Forall (unexpected port) ms ->
  fst (SetPort port true (map Response ms ++ Expired :: rest))
  = errors_New "timeout receiving response"
  /\ fst (SetPort port true (map Response ms))
     = errors_New "timeout receiving response".
Proof.
  intros Hlen Hall. split.
  - rewrite (await_after_unexpected port ms (4 - List.length ms))
      by (assumption || lia).
    reflexivity.
  - rewrite <- (app_nil_r (map Response ms)).
    rewrite (await_after_unexpected port ms (4 - List.length ms))
      by (assumption || lia).
    reflexivity.
Qed.

Lemma SetPort_receive_timeout_witness :
  fst (SetPort "dut" true
         (map Response [IsReport {| Report_ := "port"; Is := "open" |}]
          ++ Expired
             :: [Response (IsReport {| Report_ := "port"; Is := "dut" |})]))
  = errors_New "timeout receiving response"
  /\ fst (SetPort "dut" true
            (map Response [IsReport {| Report_ := "port"; Is := "open" |}]))
     = errors_New "timeout receiving response".
Proof.
  apply (SetPort_receive_timeout "dut"
           [IsReport {| Report_ := "port"; Is := "open" |}]).
  - cbn. lia.
  - repeat constructor; try discriminate. intros [_ H]. discriminate H.
Defined.

Lemma await_success (n : nat) (port : string) :
  forall arrivals : list arrival,
    await n port arrivals = None ->
    exists a : arrival, In a (firstn n arrivals) /\ matching port a.
Proof.
  induction n as [|n IH]; intros arrivals H; [discriminate|].
  destruct arrivals as [|[|[r|v]] rest]; cbn [await] in H; try discriminate.
  - destruct (String.eqb_spec (Report_ r) "error"); [discriminate|].
    destruct (String.eqb_spec (Report_ r) "port") as [Hp|];
      [destruct (String.eqb_spec (Is r) port) as [Hi|]|]; cbn [andb] in H.
    + exists (Response (IsReport r)). split; [left; reflexivity|].
      exists r. repeat split; assumption.
    + destruct (IH rest H) as [a [Hin Hm]]. exists a.
      split; [right; exact Hin | exact Hm].
    + destruct (IH rest H) as [a [Hin Hm]]. exists a.
      split; [right; exact Hin | exact Hm].
  - destruct (IH rest H) as [a [Hin Hm]]. exists a.
    split; [right; exact Hin | exact Hm].
Qed.

(** X16. [SetPort] never reports success on its own: it returns [nil]
    only if the request was sent and one of the first five responses is a
    report of kind "port" for the requested port. *)
Theorem SetPort_success_needs_report (port : string) (sendable : bool)
    (arrivals : list arrival) :
  fst (SetPort port sendable arrivals) = None ->
  sendable = true
  /\ snd (SetPort port sendable arrivals) = [{| Set_ := "port"; To := port |}]
  /\ exists a : arrival, In a (firstn 5 arrivals) /\ matching port a.
Proof.
  unfold SetPort. destruct sendable; cbn [fst snd]; [|discriminate].
  intros H. split; [reflexivity | split; [reflexivity|]].
  apply await_success. exact H.
Qed.

Lemma SetPort_success_needs_report_witness :
  true = true
  /\ snd (SetPort "dut" true
            [Response (NotReport "blank");
             Response (IsReport {| Report_ := "port"; Is := "dut" |})])
     = [{| Set_ := "port"; To := "dut" |}]
  /\ exists a : arrival,
       In a (firstn 5
               [Response (NotReport "blank");
                Response (IsReport {| Report_ := "port"; Is := "dut" |})])
       /\ matching "dut" a.
Proof.
  apply (SetPort_success_needs_report "dut" true
           [Response (NotReport "blank");
            Response (IsReport {| Report_ := "port"; Is := "dut" |})]).
  reflexivity.
Defined.

Lemma await_firstn (n : nat) (port : string) :
  forall arrivals : list arrival,
    await n port arrivals = await n port (firstn n arrivals).
Proof.
  induction n as [|n IH]; intros arrivals; [reflexivity|].
  destruct arrivals as [|[|[r|v]] rest]; cbn [await firstn];
    try reflexivity.
  - rewrite <- IH. reflexivity.
  - apply IH.
Qed.

(** X17. The retry bound is hard: [SetPort] consumes at most five
    responses, so its result and the request it sends are those it gives on
    the first five arrivals alone. A matching report in sixth place or later
    is never seen. *)
Theorem SetPort_reads_five (port : string) (sendable : bool)
    (arrivals : list arrival) :
  SetPort port sendable arrivals = SetPort port sendable (firstn 5 arrivals).
Proof.
  unfold SetPort. destruct sendable; [|reflexivity].
  rewrite (await_firstn 5 port arrivals). reflexivity.
Qed.

End ReplyFacts.

(** ** Further properties: the two pipes *)

Module PipeFacts.
Import Rfswitch Inbound Notions RfswitchFacts.

Section Outbound.

Variable V : Type.
Variable json_Marshal : V -> list Byte.byte + string.

Lemma pipe_step_trace (s : V) (t : pipe_trace) :
  pipe_step V json_Marshal s t
  = {| forwarded := forwarded t ++ [outbound json_Marshal s];
       logged := logged t
                 ++ (if fails json_Marshal s
                     then ["Could not turn interface{} into JSON"%string]
                     else []) |}.
Proof.
  unfold pipe_step, outbound, fails. destruct (json_Marshal s); reflexivity.
Qed.

(** X18. The outbound pipe writes exactly one text message per value it
    takes, in the order taken, until the first cancellation: the encoding of
    the value, or the empty payload when the value cannot be encoded; one
    warning is logged per value that cannot be encoded. Nothing taken before
    the cancellation is lost or reordered. *)
Theorem PipeInterfaceToWs_trace (events : list (pipe_event V)) :
  forall t : pipe_trace,
    forwarded (PipeInterfaceToWs V json_Marshal events t)
    = forwarded t ++ map (outbound json_Marshal) (piped events)
    /\ List.length (logged (PipeInterfaceToWs V json_Marshal events t))
       = (List.length (logged t)
          + List.length (filter (fails json_Marshal) (piped events)))%nat
    /\ Forall (fun m => Type_ m = TextMessage)
         (map (outbound json_Marshal) (piped events)).
Proof.
  induction events as [|[|s] rest IH]; intros t.
  - cbn. rewrite app_nil_r. repeat split; [lia | constructor].
  - cbn. rewrite app_nil_r. repeat split; [lia | constructor].
  - cbn [PipeInterfaceToWs piped map filter].
    destruct (IH (pipe_step V json_Marshal s t)) as [Hf [Hl Ht]].
    rewrite Hf, Hl, pipe_step_trace. cbn [forwarded logged].
    rewrite <- app_assoc, length_app. split; [reflexivity|]. split.
    + destruct (fails json_Marshal s); cbn [List.length]; lia.
    + constructor; [reflexivity | exact Ht].
Qed.

End Outbound.

Section InboundPipe.

Variable json_Unmarshal : list Byte.byte -> Report * error.

Lemma inbound_trace_of (events : list (pipe_event WsMessage)) :
  forall t : inbound_trace,
    delivered (PipeWsToInterface json_Unmarshal events t)
    = delivered t
      ++ map (fun msg => fst (json_Unmarshal (Data msg))) (piped events)
    /\ List.length (warned (PipeWsToInterface json_Unmarshal events t))
       = (List.length (warned t)
          + List.length (filter (garbled json_Unmarshal) (piped events)))%nat.
Proof.
  induction events as [|[|msg] rest IH]; intros t.
  - cbn. rewrite app_nil_r. split; [reflexivity | lia].
  - cbn. rewrite app_nil_r. split; [reflexivity | lia].
  - cbn [PipeWsToInterface piped map filter].
    destruct (IH (inbound_step json_Unmarshal msg t)) as [Hd Hw].
    rewrite Hd, Hw. unfold inbound_step, garbled.
    destruct (json_Unmarshal (Data msg)) as [r [err|]];
      cbn [delivered warned fst snd];
      rewrite <- app_assoc, length_app; cbn [List.length app];
      (split; [reflexivity | lia]).
Qed.

(** X19. The inbound pipe writes exactly one report per message it takes,
    in the order taken, until the first cancellation: whatever
    [json.Unmarshal] left in the report, also when it failed; a message that
    cannot be decoded is logged and still answered by a report, never
    dropped. *)
Theorem PipeWsToInterface_trace (events : list (pipe_event WsMessage))
    (t : inbound_trace) :
  delivered (PipeWsToInterface json_Unmarshal events t)
  = delivered t
    ++ map (fun msg => fst (json_Unmarshal (Data msg))) (piped events)
  /\ List.length (delivered (PipeWsToInterface json_Unmarshal events t))
     = (List.length (delivered t) + List.length (piped events))%nat
  /\ List.length (warned (PipeWsToInterface json_Unmarshal events t))
     = (List.length (warned t)
        + List.length (filter (garbled json_Unmarshal) (piped events)))%nat.
Proof.
  destruct (inbound_trace_of events t) as [Hd Hw].
  split; [exact Hd | split; [|exact Hw]].
  rewrite Hd, length_app, length_map. reflexivity.
Qed.

Lemma zero_Report_unexpected (port : string) :
  unexpected port (IsReport zero_Report).
Proof.
  cbn. split; [discriminate|]. intros [H _]. discriminate H.
Qed.

(** X20. The inbound pipe and [SetPort] together. A frame that cannot be
    decoded and leaves the report zero-valued reaches [SetPort] as a report
    that matches nothing: it costs one of the five attempts. So after fewer
    than five such frames the report of the requested port still makes
    [SetPort] succeed, and five of them in a row make it fail with "Too many
    Unexpected responses". *)
Theorem garbled_frames_cost_attempts (port : string)
    (frames : list WsMessage) (good : WsMessage)
    (rest : list (pipe_event WsMessage)) :
  Forall (fun msg => fst (json_Unmarshal (Data msg)) = zero_Report) frames ->
  fst (json_Unmarshal (Data good)) = {| Report_ := "port"; Is := port |} ->
  ((List.length frames < 5)%nat ->
   fst (SetPort port true
          (arrivals_of
             (delivered
                (PipeWsToInterface json_Unmarshal
                   (map (Incoming WsMessage) frames
                    ++ Incoming WsMessage good :: rest)
                   {| delivered := []; warned := [] |}))))
   = None)
  /\ (List.length frames = 5%nat ->
      fst (SetPort port true
             (arrivals_of
                (delivered
                   (PipeWsToInterface json_Unmarshal
                      (map (Incoming WsMessage) frames
                       ++ Incoming WsMessage good :: rest)
                      {| delivered := []; warned := [] |}))))
      = errors_New "Too many Unexpected responses").
Proof.
  intros Hzero Hgood.
  destruct (inbound_trace_of
              (map (Incoming WsMessage) frames
               ++ Incoming WsMessage good :: rest)
              {| delivered := []; warned := [] |}) as [Hd _].
  rewrite Hd. cbn [delivered app].
  assert (Hpiped : forall fs tail,
            piped (map (Incoming WsMessage) fs ++ tail) = fs ++ piped tail).
  { induction fs as [|f fs IHfs]; intros tail; [reflexivity|].
    cbn [map app piped]. rewrite IHfs. reflexivity. }
  rewrite Hpiped. cbn [piped]. unfold arrivals_of.
  rewrite !map_app, !map_map. cbn [map]. rewrite Hgood.
  assert (Hmap : map (fun x => Response (IsReport
                        (fst (json_Unmarshal (Data x))))) frames
                 = map Response
                     (map (fun _ => IsReport zero_Report) frames)).
  { rewrite map_map. apply map_ext_in. intros f Hf.
    rewrite Forall_forall in Hzero. rewrite (Hzero f Hf). reflexivity. }
  rewrite Hmap.
  assert (Hall : Forall (unexpected port)
                   (map (fun _ : WsMessage => IsReport zero_Report) frames)).
  { apply Forall_forall. intros m Hm. apply in_map_iff in Hm.
    destruct Hm as [f [<- _]]. apply zero_Report_unexpected. }
  split; intros Hlen; unfold SetPort; cbn [fst].
  - replace 5%nat
      with (List.length (map (fun _ : WsMessage => IsReport zero_Report)
                           frames) + S (4 - List.length frames))%nat
      by (rewrite length_map; lia).
    rewrite await_discards_all by exact Hall.
    cbn [await Report_ Is]. cbn [String.eqb Ascii.eqb Bool.eqb andb].
    rewrite String.eqb_refl. reflexivity.
  - replace 5%nat
      with (List.length (map (fun _ : WsMessage => IsReport zero_Report)
                           frames) + 0)%nat
      by (rewrite length_map; lia).
    rewrite await_discards_all by exact Hall. reflexivity.
Qed.

End InboundPipe.

Import Instances.

Lemma garbled_frames_cost_attempts_witness :
  fst (SetPort "dut" true
         (arrivals_of
            (delivered
               (PipeWsToInterface sample_Unmarshal
                  (map (Incoming WsMessage) [frame "%%"; frame "{"]
                   ++ Incoming WsMessage (frame "dut") :: [CtxDone WsMessage])
                  {| delivered := []; warned := [] |}))))
  = None.
Proof.
  apply (garbled_frames_cost_attempts sample_Unmarshal "dut"
           [frame "%%"; frame "{"] (frame "dut") [CtxDone WsMessage]).
  - repeat constructor.
  - reflexivity.
  - cbn. lia.
Defined.

End PipeFacts.
